(** * A polling file-system watcher: shallow embedding of [watcher.go]

    The package keeps a snapshot [files] of the watched paths, lists the
    registered roots once per cycle, and diffs the fresh listing against the
    snapshot ([pollEvents]).  Go maps are [gmap]s, the sets [ignored] and
    [ops] are [gset]s, and the operating system ([os.Stat], [ioutil.ReadDir],
    [filepath.Abs], ...) is a record of oracles. *)

From Stdlib Require Import ZArith Ascii String List.
From stdpp Require Import gmap strings list fin_maps sorting.

Local Open Scope string_scope.
Local Open Scope list_scope.
Local Open Scope Z_scope.

(** ** Errors *)

(** The three package-level error values, and what the standard library can
    return: an error for which [os.IsNotExist] holds, and any other one. *)
Inductive error : Type :=
  | ErrDurationTooShort
  | ErrWatcherRunning
  | ErrWatchedFileDeleted
  | ErrNotExist
  | ErrOther (code : nat).

Definition IsNotExist (e : error) : bool :=
  match e with ErrNotExist => true | _ => false end.

#[global] Instance error_eq_dec : EqDecision error.
Proof. solve_decision. Defined.

(** ** [Op], [os.FileInfo], [Event] *)

(** [type Op uint32] with the constants numbered by [iota]. *)
Definition Op : Type := N.

Definition Create : Op := 0%N.
Definition Write : Op := 1%N.
Definition Remove : Op := 2%N.
Definition Rename : Op := 3%N.
Definition Chmod : Op := 4%N.
Definition Move : Op := 5%N.

(** [time.Time] is a struct of three words and [!=] compares all of them. *)
Record Time : Type := mkTime { wall : Z; ext : Z; loc : Z }.

#[global] Instance Time_eq_dec : EqDecision Time.
Proof. solve_decision. Defined.

(** What the methods of an [os.FileInfo] return ([Sys] is opaque and never
    read by the package). *)
Record FileInfo : Type := mkFileInfo {
  Name : string;
  Size : Z;
  Mode : Z;
  ModTime : Time;
  IsDir : bool
}.

#[global] Instance FileInfo_eq_dec : EqDecision FileInfo.
Proof. solve_decision. Defined.

Record Event : Type := mkEvent {
  EvOp : Op;
  Path : string;
  Info : FileInfo
}.

#[global] Instance Event_eq_dec : EqDecision Event.
Proof. solve_decision. Defined.

(** ** The operating system and the standard library *)

Inductive result (A : Type) : Type :=
  | Ok (a : A)
  | Err (e : error).
Arguments Ok {A} a.
Arguments Err {A} e.

(** What the package calls outside itself.  [Lstat] and [readDirNames] are
    the two calls [filepath.Walk] makes. *)
Record OS : Type := mkOS {
  Abs : string -> result string;
  Dir : string -> string;
  Join : string -> string -> string;
  Stat : string -> result FileInfo;
  ReadDir : string -> result (list FileInfo);
  Lstat : string -> result FileInfo;
  readDirNames : string -> result (list string);
  (** [sameFile] is called by [pollEvents]; the package declares it in a
      file per platform. *)
  sameFile : FileInfo -> FileInfo -> bool
}.

(** [strings.HasPrefix(s, prefix)] *)
Definition HasPrefix (s pre : string) : bool := String.prefix pre s.

(** *** [filepath.Walk] *)

(** A non-nil error returned by a [WalkFunc]. *)
Inductive walkerr : Type :=
  | SkipDir
  | Fail (e : error).

(** The two shapes of a call of the [WalkFunc]: with the [FileInfo] of the
    entry (and the error of reading the directory, if any), or with the error
    of [Lstat] and no [FileInfo]. *)
Inductive walkarg : Type :=
  | Visited (info : FileInfo) (err : option error)
  | Unreadable (err : error).

Section Walk.
Context (os : OS) {S : Type}.
Variable walkFn : string -> walkarg -> S -> S * option walkerr.

(** The loop of [walk] over the names of a directory; [rec] is the
    recursive call. *)
Fixpoint walk_names (rec : string -> FileInfo -> S -> option (S * option walkerr))
    (path : string) (names : list string) (st : S)
  : option (S * option walkerr) :=
  match names with
  | [] => Some (st, None)
  | name :: rest =>
      let filename := Join os path name in
      match Lstat os filename with
      | Err e =>
          match walkFn filename (Unreadable e) st with
          | (st', Some (Fail e')) => Some (st', Some (Fail e'))
          | (st', _) => walk_names rec path rest st'
          end
      | Ok fileInfo =>
          match rec filename fileInfo st with
          | None => None
          | Some (st', None) => walk_names rec path rest st'
          | Some (st', Some SkipDir) =>
              if IsDir fileInfo then walk_names rec path rest st'
              else Some (st', Some SkipDir)
          | Some (st', Some (Fail e')) => Some (st', Some (Fail e'))
          end
      end
  end.

(** [walk]; the fuel bounds the depth of the recursion, [None] is a tree
    deeper than the fuel. *)
Fixpoint walk (fuel : nat) (path : string) (info : FileInfo) (st : S)
  : option (S * option walkerr) :=
  match fuel with
  | O => None
  | Datatypes.S fuel' =>
      if negb (IsDir info) then Some (walkFn path (Visited info None) st)
      else
        let names := readDirNames os path in
        let err := match names with Err e => Some e | Ok _ => None end in
        match walkFn path (Visited info err) st, names with
        | (st1, None), Ok l => walk_names (walk fuel') path l st1
        | (st1, err1), _ => Some (st1, err1)
        end
  end.

Definition Walk (fuel : nat) (root : string) (st : S)
  : option (S * option error) :=
  let r := match Lstat os root with
           | Err e => Some (walkFn root (Unreadable e) st)
           | Ok info => walk fuel root info st
           end in
  match r with
  | None => None
  | Some (st', Some (Fail e)) => Some (st', Some e)
  | Some (st', _) => Some (st', None)
  end.
End Walk.

(** ** The watcher *)

(** The fields of [Watcher] that hold data; [wg] is the counter of the
    [sync.WaitGroup].  The channels appear as the outputs of the functions
    that send on them. *)
Record Watcher : Type := mkWatcher {
  runnning : bool;
  names : gmap string bool;
  files : gmap string FileInfo;
  ignored : gset string;
  ops : gset Op;
  ignoreHidden : bool;
  maxEvents : Z;
  wg : Z
}.

Definition set_names (w : Watcher) (n : gmap string bool) : Watcher :=
  mkWatcher (runnning w) n (files w) (ignored w) (ops w) (ignoreHidden w)
            (maxEvents w) (wg w).
Definition set_files (w : Watcher) (f : gmap string FileInfo) : Watcher :=
  mkWatcher (runnning w) (names w) f (ignored w) (ops w) (ignoreHidden w)
            (maxEvents w) (wg w).
Definition set_ignored (w : Watcher) (i : gset string) : Watcher :=
  mkWatcher (runnning w) (names w) (files w) i (ops w) (ignoreHidden w)
            (maxEvents w) (wg w).
Definition set_runnning (w : Watcher) (b : bool) : Watcher :=
  mkWatcher b (names w) (files w) (ignored w) (ops w) (ignoreHidden w)
            (maxEvents w) (wg w).
Definition set_wg (w : Watcher) (n : Z) : Watcher :=
  mkWatcher (runnning w) (names w) (files w) (ignored w) (ops w)
            (ignoreHidden w) (maxEvents w) n.

Definition New : Watcher :=
  mkWatcher false ∅ ∅ ∅ ∅ false 0 1.

Definition SetMaxEvents (w : Watcher) (delta : Z) : Watcher :=
  mkWatcher (runnning w) (names w) (files w) (ignored w) (ops w)
            (ignoreHidden w) delta (wg w).

Definition IgnoreHiddenFiles (w : Watcher) (ignore : bool) : Watcher :=
  mkWatcher (runnning w) (names w) (files w) (ignored w) (ops w) ignore
            (maxEvents w) (wg w).

Definition FilterOps (w : Watcher) (l : list Op) : Watcher :=
  mkWatcher (runnning w) (names w) (files w) (ignored w) (list_to_set l)
            (ignoreHidden w) (maxEvents w) (wg w).

(** ** The diff of two snapshots, the body of [pollEvents] *)

(** [fmt.Sprintf("%s -> %s", path1, path2)] *)
Definition arrow (path1 path2 : string) : string :=
  path1 +:+ " -> " +:+ path2.

(** What [pollEvents] decides to send, before it is packed into an [Event]:
    the pairing of a rename keeps both paths apart. *)
Inductive action : Type :=
  | AWrite (path : string) (info : FileInfo)
  | AChmod (path : string) (info : FileInfo)
  | APair (path1 : string) (info1 : FileInfo) (path2 : string)
  | ACreate (path : string) (info : FileInfo)
  | ARemove (path : string) (info : FileInfo).

Section Diff.
Context (os : OS).

(** A [range] over a map visits its entries in an order Go leaves open, anew
    at every [range] statement.  [range n m] is the order in which the
    statement numbered [n] visits the map [m]: 0 for the loop over [files], 1
    for the outer loop over [removes], [2 + k] for the inner loop over
    [creates] in the turn [k] of the outer loop, and two more numbers for the
    last two loops.  (The first loop only fills [removes]; its order does not
    show.) *)
Variable range : nat -> gmap string FileInfo -> list (string * FileInfo).

Definition event_of (a : action) : Event :=
  match a with
  | AWrite path info => mkEvent Write path info
  | AChmod path info => mkEvent Chmod path info
  | APair path1 info1 path2 =>
      mkEvent (if decide (Dir os path1 = Dir os path2) then Rename else Move)
              (arrow path1 path2) info1
  | ACreate path info => mkEvent Create path info
  | ARemove path info => mkEvent Remove path info
  end.

(** First loop: the entries of [w.files] that the listing lacks. *)
Definition removes_of (old new : gmap string FileInfo) : gmap string FileInfo :=
  filter (fun kv => new !! kv.1 = None) old.

(** Second loop, the [!found] branch. *)
Definition creates_of (old new : gmap string FileInfo) : gmap string FileInfo :=
  filter (fun kv => old !! kv.1 = None) new.

(** Second loop, one entry found in both maps. *)
Definition changes_at (old : gmap string FileInfo) (kv : string * FileInfo)
  : list action :=
  match old !! kv.1 with
  | None => []
  | Some oldInfo =>
      (if decide (ModTime oldInfo <> ModTime kv.2) then [AWrite kv.1 kv.2] else [])
      ++ (if decide (Mode oldInfo <> Mode kv.2) then [AChmod kv.1 kv.2] else [])
  end.

Definition changes (old new : gmap string FileInfo) : list action :=
  concat (map (changes_at old) (range 0 new)).

(** The state of the two nested loops: what is left of [removes] and
    [creates], and the events sent so far. *)
Record pairing : Type := mkPairing {
  p_removes : gmap string FileInfo;
  p_creates : gmap string FileInfo;
  p_sent : list action
}.

(** One turn of the inner loop.  There is no [break] after a match: the
    loop goes on with the same [path1]. *)
Definition pair_step (path1 : string) (info1 : FileInfo)
    (st : pairing) (kv2 : string * FileInfo) : pairing :=
  if sameFile os info1 kv2.2 then
    mkPairing (delete path1 (p_removes st)) (delete kv2.1 (p_creates st))
              (p_sent st ++ [APair path1 info1 kv2.1])
  else st.

(** The inner loop ranges over [creates] as it is when the loop starts; an
    entry is only ever deleted at its own turn. *)
Definition pair_inner (n : nat) (st : pairing) (kv1 : string * FileInfo)
  : pairing :=
  fold_left (pair_step kv1.1 kv1.2) (range n (p_creates st)) st.

(** The outer loop; its [k]-th turn runs the [range] numbered [2 + k]. *)
Fixpoint pair_outer (k : nat) (l : list (string * FileInfo)) (st : pairing)
  : pairing :=
  match l with
  | [] => st
  | kv1 :: l' => pair_outer (S k) l' (pair_inner (2 + k) st kv1)
  end.

Definition pairs (old new : gmap string FileInfo) : pairing :=
  let removes := removes_of old new in
  pair_outer 0 (range 1 removes) (mkPairing removes (creates_of old new) []).

(** Everything [pollEvents] sends on [evt] when nobody cancels, in order. *)
Definition pollActions (old new : gmap string FileInfo) : list action :=
  let st := pairs old new in
  let n := length (range 1 (removes_of old new)) in
  changes old new
  ++ p_sent st
  ++ map (fun kv => ACreate kv.1 kv.2) (range (2 + n) (p_creates st))
  ++ map (fun kv => ARemove kv.1 kv.2) (range (3 + n) (p_removes st)).

End Diff.

Module Watcher.
Section Methods.
Context (os : OS).

(** The test shared by [Add], [list] and [listRecursive]; [name] is what
    the caller passes to [strings.HasPrefix]. *)
Definition skipped (w : Watcher) (path name : string) : bool :=
  bool_decide (path ∈ ignored w) || (ignoreHidden w && HasPrefix name ".").

Definition list_child (w : Watcher) (name : string)
    (fileList : gmap string FileInfo) (fInfo : FileInfo)
  : gmap string FileInfo :=
  let path := Join os name (Name fInfo) in
  if skipped w path (Name fInfo) then fileList else <[path := fInfo]> fileList.

Definition list (w : Watcher) (name : string)
  : result (gmap string FileInfo) :=
  match Stat os name with
  | Err e => Err e
  | Ok stat =>
      let fileList : gmap string FileInfo := {[ name := stat ]} in
      if negb (IsDir stat) then Ok fileList
      else match ReadDir os name with
           | Err e => Err e
           | Ok fInfoList => Ok (fold_left (list_child w name) fInfoList fileList)
           end
  end.

(** The function literal that [listRecursive] passes to [filepath.Walk]. *)
Definition listRecursive_fn (w : Watcher) (path : string) (a : walkarg)
    (fileList : gmap string FileInfo)
  : gmap string FileInfo * option walkerr :=
  match a with
  | Unreadable e => (fileList, Some (Fail e))
  | Visited _ (Some e) => (fileList, Some (Fail e))
  | Visited info None =>
      if skipped w path (Name info) then
        (fileList, if IsDir info then Some SkipDir else None)
      else (<[path := info]> fileList, None)
  end.

(** [listRecursive] returns the map together with the error of the walk:
    on an error the map holds what was visited before it. *)
Definition listRecursive (fuel : nat) (w : Watcher) (name : string)
  : option (gmap string FileInfo * option error) :=
  Walk os (listRecursive_fn w) fuel name ∅.

Definition Add (w : Watcher) (name : string) : Watcher * option error :=
  match Abs os name with
  | Err e => (w, Some e)
  | Ok name =>
      if skipped w name name then (w, None)
      else match list w name with
           | Err e => (w, Some e)
           | Ok fileList =>
               (set_names (set_files w (fileList ∪ files w))
                          (<[name := false]> (names w)), None)
           end
  end.

Definition AddRecursive (fuel : nat) (w : Watcher) (name : string)
  : option (Watcher * option error) :=
  match Abs os name with
  | Err e => Some (w, Some e)
  | Ok name =>
      match listRecursive fuel w name with
      | None => None
      | Some (_, Some e) => Some (w, Some e)
      | Some (fileList, None) =>
          Some (set_names (set_files w (fileList ∪ files w))
                          (<[name := true]> (names w)), None)
      end
  end.

(** The loop of [Remove] deletes while it ranges: what stays is what fails
    the test, in whatever order the map is visited. *)
Definition Remove (w : Watcher) (name : string) : Watcher * option error :=
  match Abs os name with
  | Err e => (w, Some e)
  | Ok name =>
      let w := set_names w (delete name (names w)) in
      match files w !! name with
      | None => (w, None)
      | Some info =>
          if negb (IsDir info) then (set_files w (delete name (files w)), None)
          else
            (set_files w
               (filter (fun kv => Dir os kv.1 <> name) (delete name (files w))),
             None)
      end
  end.

Definition RemoveRecursive (w : Watcher) (name : string)
  : Watcher * option error :=
  match Abs os name with
  | Err e => (w, Some e)
  | Ok name =>
      let w := set_names w (delete name (names w)) in
      match files w !! name with
      | None => (w, None)
      | Some info =>
          if negb (IsDir info) then (set_files w (delete name (files w)), None)
          else
            (set_files w
               (filter (fun kv => HasPrefix kv.1 name = false) (files w)),
             None)
      end
  end.

Fixpoint Ignore (w : Watcher) (paths : Datatypes.list string) : Watcher * option error :=
  match paths with
  | [] => (w, None)
  | path :: rest =>
      match Abs os path with
      | Err e => (w, Some e)
      | Ok path =>
          match RemoveRecursive w path with
          | (w', Some e) => (w', Some e)
          | (w', None) => Ignore (set_ignored w' ({[ path ]} ∪ ignored w')) rest
          end
      end
  end.

Definition WatchedFiles (w : Watcher) : gmap string FileInfo := files w.

(** One turn of the loop of [retrieveFileList] over [w.names]: the
    watcher, the map built so far and the errors sent on [w.Error].  On an
    error [listRecursive] still hands over the map of what it visited and
    [list] hands over [nil]. *)
Definition retrieve_step (fuel : nat)
    (acc : option (Watcher * gmap string FileInfo * Datatypes.list error))
    (nr : string * bool)
  : option (Watcher * gmap string FileInfo * Datatypes.list error) :=
  match acc with
  | None => None
  | Some (w, fileList, errs) =>
      if nr.2 then
        match listRecursive fuel w nr.1 with
        | None => None
        | Some (l, None) => Some (w, l ∪ fileList, errs)
        | Some (l, Some e) =>
            if IsNotExist e then
              Some ((RemoveRecursive w nr.1).1, l ∪ fileList,
                    errs ++ [ErrWatchedFileDeleted])
            else Some (w, l ∪ fileList, errs ++ [e])
        end
      else
        match list w nr.1 with
        | Ok l => Some (w, l ∪ fileList, errs)
        | Err e =>
            if IsNotExist e then
              Some ((Remove w nr.1).1, fileList,
                    errs ++ [ErrWatchedFileDeleted])
            else Some (w, fileList, errs ++ [e])
        end
  end.

(** [range_names] is the order in which the loop visits [w.names]. *)
Definition retrieveFileList (fuel : nat)
    (range_names : gmap string bool -> Datatypes.list (string * bool))
    (w : Watcher)
  : option (Watcher * gmap string FileInfo * Datatypes.list error) :=
  fold_left (retrieve_step fuel) (range_names (names w)) (Some (w, ∅, [])).

(** [pollEvents(files, evt, cancel)]: what it sends on [evt], in order,
    when [cancel] stays open. *)
Definition pollEvents
    (range : nat -> gmap string FileInfo -> Datatypes.list (string * FileInfo))
    (w : Watcher) (fileList : gmap string FileInfo) : Datatypes.list Event :=
  map (event_of os) (pollActions os range (files w) fileList).

Definition Close (w : Watcher) : Watcher :=
  if negb (runnning w) then w
  else set_names (set_files (set_runnning w false) ∅) ∅.
End Methods.

(** *** [Start] *)

(** How a call of [Start] goes on after its first lines: it returns an error,
    or [wg.Done] panics on a counter below zero, or it enters the loop. *)
Inductive entry : Type :=
  | Returns (e : error)
  | Panics
  | Loops.

(** The lines of [Start] before the loop.  [time.Duration] is an [int64] of
    nanoseconds and [time.Nanosecond] is 1. *)
Definition Start_enter (w : Watcher) (d : Z) : Watcher * entry :=
  if d <? 1 then (w, Returns ErrDurationTooShort)
  else if runnning w then (w, Returns ErrWatcherRunning)
  else
    let w := set_runnning w true in
    if wg w - 1 <? 0 then (w, Panics) else (set_wg w (wg w - 1), Loops).

(** What the [select] of the inner loop receives: a value on [w.close], an
    event on [evt], or the value on [done]. *)
Inductive msg : Type :=
  | OnClose
  | OnEvt (event : Event)
  | OnDone.

(** How the inner loop ends: [return] after a close, [break inner] on the
    cap or on [done], or the loop still blocks in [select]. *)
Inductive ending : Type :=
  | Closed
  | Capped
  | Finished
  | Blocked.

(** [numEvents++] on an [int] of 64 bits. *)
Definition wrap64 (z : Z) : Z := (z + 2 ^ 63) mod 2 ^ 64 - 2 ^ 63.

(** The inner loop of [Start] over what its [select] receives, from the
    counter [numEvents]: the events sent on [w.Event] and how it ends. *)
Fixpoint dispatch (w : Watcher) (numEvents : Z) (inbox : Datatypes.list msg)
  : Datatypes.list Event * ending :=
  match inbox with
  | [] => ([], Blocked)
  | OnClose :: _ => ([], Closed)
  | OnDone :: _ => ([], Finished)
  | OnEvt event :: rest =>
      if bool_decide (ops w <> ∅) && negb (bool_decide (EvOp event ∈ ops w))
      then dispatch w numEvents rest
      else
        let numEvents := wrap64 (numEvents + 1) in
        if (0 <? maxEvents w) && (maxEvents w <? numEvents) then ([], Capped)
        else let r := dispatch w numEvents rest in (event :: r.1, r.2)
  end.

(** One turn of the outer loop of [Start]: the listing, the inner loop on a
    fresh [evt] with [numEvents := 0], and the commit [w.files = fileList]
    once the inner loop is left by [break].  The goroutine that a turn starts
    only sends on [done]; the inbox is whatever the [select] receives. *)
Definition cycle (os : OS) (fuel : nat)
    (range_names : gmap string bool -> Datatypes.list (string * bool))
    (w : Watcher) (inbox : Datatypes.list msg)
  : option (Watcher * Datatypes.list error * Datatypes.list Event * ending) :=
  match retrieveFileList os fuel range_names w with
  | None => None
  | Some (w1, fileList, errs) =>
      let r := dispatch w1 0 inbox in
      match r.2 with
      | Closed => Some (w1, errs, r.1, Closed)
      | Blocked => Some (w1, errs, r.1, Blocked)
      | e => Some (set_files w1 fileList, errs, r.1, e)
      end
  end.

(** The loop of [Start]: one inbox per cycle; the events sent on [w.Event],
    cycle by cycle. *)
Fixpoint cycles (os : OS) (fuel : nat)
    (range_names : gmap string bool -> Datatypes.list (string * bool))
    (w : Watcher) (inboxes : Datatypes.list (Datatypes.list msg))
  : option (Watcher * Datatypes.list (Datatypes.list Event)) :=
  match inboxes with
  | [] => Some (w, [])
  | inbox :: rest =>
      match cycle os fuel range_names w inbox with
      | None => None
      | Some (w', _, out, Closed) => Some (w', [out])
      | Some (w', _, out, Blocked) => Some (w', [out])
      | Some (w', _, out, _) =>
          match cycles os fuel range_names w' rest with
          | None => None
          | Some (w'', outs) => Some (w'', out :: outs)
          end
      end
  end.
End Watcher.

(** ** A concrete system: Unix paths and a small tree *)

Fixpoint split_slash (s cur : string) : list string :=
  match s with
  | EmptyString => [cur]
  | String c s' =>
      if Ascii.eqb c "/"%char then cur :: split_slash s' ""
      else split_slash s' (cur +:+ String c "")
  end.

Fixpoint join_slash (l : list string) : string :=
  match l with
  | [] => ""
  | [x] => x
  | x :: l' => x +:+ "/" +:+ join_slash l'
  end.

(** The rules of [filepath.Clean]; the stack holds the kept elements, last
    first. *)
Definition clean_step (rooted : bool) (stack : list string) (c : string)
  : list string :=
  if bool_decide (c = "") || bool_decide (c = ".") then stack
  else if bool_decide (c = "..") then
    match stack with
    | top :: rest => if bool_decide (top = "..") then c :: stack else rest
    | [] => if rooted then [] else [c]
    end
  else c :: stack.

Definition Clean (path : string) : string :=
  let rooted := HasPrefix path "/" in
  let body := join_slash (rev (fold_left (clean_step rooted) (split_slash path "") [])) in
  if rooted then "/" +:+ body
  else if bool_decide (body = "") then "." else body.

Definition unix_Dir (path : string) : string :=
  match rev (split_slash path "") with
  | _ :: (_ :: _) as init => Clean (join_slash (rev init) +:+ "/")
  | _ => "."
  end.

Definition unix_Join (a b : string) : string :=
  if bool_decide (a = "") then (if bool_decide (b = "") then "" else Clean b)
  else if bool_decide (b = "") then Clean a
  else Clean (a +:+ "/" +:+ b).

(** [filepath.Abs] where [os.Getwd] fails: only an absolute path resolves. *)
Definition unix_Abs (path : string) : result string :=
  if HasPrefix path "/" then Ok (Clean path) else Err (ErrOther 2).

Definition T0 : Time := mkTime 100 0 0.
Definition T1 : Time := mkTime 200 0 0.
Definition file (name : string) : FileInfo := mkFileInfo name 10 420 T0 false.
Definition dir (name : string) : FileInfo := mkFileInfo name 4096 2147484141 T0 true.

(** The tree [/a], [/a/.git], [/a/b], [/a/b/c], [/a/bc]. *)
Definition tree : list (string * (FileInfo * list string)) :=
  [ ("/a", (dir "a", [".git"; "b"; "bc"]));
    ("/a/.git", (dir ".git", []));
    ("/a/b", (dir "b", ["c"]));
    ("/a/b/c", (file "c", []));
    ("/a/bc", (file "bc", [])) ].

Fixpoint assoc {A : Type} (k : string) (l : list (string * A)) : option A :=
  match l with
  | [] => None
  | (k', v) :: l' => if bool_decide (k = k') then Some v else assoc k l'
  end.

Definition tree_stat (path : string) : result FileInfo :=
  match assoc path tree with
  | Some (info, _) => Ok info
  | None => Err ErrNotExist
  end.

Definition tree_names (path : string) : result (list string) :=
  match assoc path tree with
  | Some (_, l) => Ok l
  | None => Err ErrNotExist
  end.

Definition tree_ReadDir (path : string) : result (list FileInfo) :=
  match tree_names path with
  | Err e => Err e
  | Ok l =>
      Ok (omap (fun n => match tree_stat (unix_Join path n) with
                         | Ok i => Some i
                         | Err _ => None
                         end) l)
  end.

(** Modelled from the spec: [sameFile] has no definition in the package's
    source; two metadata are the same file when size, modification time and
    permission bits match. *)
Definition sameFile_spec (fi1 fi2 : FileInfo) : bool :=
  bool_decide (Size fi1 = Size fi2)
  && bool_decide (ModTime fi1 = ModTime fi2)
  && bool_decide (Mode fi1 = Mode fi2).

Definition unix : OS :=
  mkOS unix_Abs unix_Dir unix_Join tree_stat tree_ReadDir tree_stat tree_names
       sameFile_spec.

(** The order of [map_to_list], for every [range]. *)
Definition range_fixed (n : nat) (m : gmap string FileInfo)
  : list (string * FileInfo) := map_to_list m.

Definition names_fixed (m : gmap string bool) : list (string * bool) :=
  map_to_list m.


(** ** Vocabulary of the statements *)

(** What a call of [RemoveRecursive] that resolved its argument to [q] leaves
    of the snapshot. *)
Definition purged (w : Watcher) (q : string) : gmap string FileInfo :=
  match files w !! q with
  | None => files w
  | Some info =>
      if IsDir info then filter (fun kv => HasPrefix kv.1 q = false) (files w)
      else delete q (files w)
  end.

(** The watcher after one turn of the loop of [Ignore] on a path that
    resolves to [q]. *)
Definition ignore_one (w : Watcher) (q : string) : Watcher :=
  mkWatcher (runnning w) (delete q (names w)) (purged w q)
            ({[ q ]} ∪ ignored w) (ops w) (ignoreHidden w) (maxEvents w) (wg w).

(** [filepath.Abs] resolves [x], and resolves the result to itself. *)
Definition resolves (os : OS) (x : string) : Prop :=
  exists q, Abs os x = Ok q /\ Abs os q = Ok q.

(** The events that the [select] of one cycle receives on [evt] before a
    value arrives on [done] or [w.close]. *)
Fixpoint received (inbox : list Watcher.msg) : list Event :=
  match inbox with
  | Watcher.OnEvt event :: rest => event :: received rest
  | _ => []
  end.

(** The test of the inner loop on [w.ops]. *)
Definition passes (w : Watcher) (event : Event) : bool :=
  negb (bool_decide (ops w <> ∅) && negb (bool_decide (EvOp event ∈ ops w))).

(** The first [maxEvents] events when the cap is positive, all of them
    otherwise. *)
Definition capped (w : Watcher) (l : list Event) : list Event :=
  if 0 <? maxEvents w then take (Z.to_nat (maxEvents w)) l else l.

(** The fields that no method called in a cycle writes. *)
Definition same_config (w w' : Watcher) : Prop :=
  ops w' = ops w /\ maxEvents w' = maxEvents w
  /\ ignored w' = ignored w /\ ignoreHidden w' = ignoreHidden w.

(** Every [range] visits every entry of its map once, in some order. *)
Definition any_order
    (range : nat -> gmap string FileInfo -> list (string * FileInfo)) : Prop :=
  forall n m, range n m ≡ₚ map_to_list m.

(** The place of a kind of event in one diff. *)
Definition rank (op : Op) : nat :=
  if bool_decide (op = Write \/ op = Chmod) then 0%nat
  else if bool_decide (op = Rename \/ op = Move) then 1%nat
  else if bool_decide (op = Create) then 2%nat
  else if bool_decide (op = Remove) then 3%nat
  else 4%nat.

Definition is_pair (a : action) : Prop :=
  match a with APair _ _ _ => True | _ => False end.

(** The entries of [l] that [sameFile] pairs with [info1]. *)
Definition hits (os : OS) (info1 : FileInfo) (l : list (string * FileInfo))
  : list (string * FileInfo) :=
  filter (fun kv => sameFile os info1 kv.2 = true) l.

(** The new paths and the old paths of the pairings sent so far. *)
Definition news (sent : list action) : list string :=
  omap (fun a => match a with APair _ _ path2 => Some path2 | _ => None end) sent.

Definition olds (sent : list action) : list string :=
  omap (fun a => match a with APair path1 _ _ => Some path1 | _ => None end) sent.

(** A pairing of a removal candidate of [R0] with a creation candidate of
    [C0] that [sameFile] accepts. *)
Definition matched (os : OS) (R0 C0 : gmap string FileInfo) (a : action) : Prop :=
  match a with
  | APair path1 info1 path2 =>
      R0 !! path1 = Some info1
      /\ exists info2, C0 !! path2 = Some info2 /\ sameFile os info1 info2 = true
  | _ => False
  end.

(** What the two nested loops keep true, from the candidates [R0] and [C0]. *)
Record pairing_inv (os : OS) (R0 C0 : gmap string FileInfo) (st : pairing)
  : Prop := mkPairingInv {
  inv_creates : forall p,
    p_creates st !! p = if decide (p ∈ news (p_sent st)) then None else C0 !! p;
  inv_removes : forall p,
    p_removes st !! p = if decide (p ∈ olds (p_sent st)) then None else R0 !! p;
  inv_nodup : NoDup (news (p_sent st));
  inv_sent : Forall (matched os R0 C0) (p_sent st)
}.

(** The terminal events of a path of the old snapshot (it is removed, or is
    the old path of a pairing) and of a path of the new one (it is created,
    or is the new path of a pairing). *)
Definition consumes_old (p : string) (a : action) : Prop :=
  match a with
  | ARemove q _ => q = p
  | APair q _ _ => q = p
  | _ => False
  end.

Definition consumes_new (p : string) (a : action) : Prop :=
  match a with
  | ACreate q _ => q = p
  | APair _ _ q => q = p
  | _ => False
  end.

#[global] Instance consumes_old_dec (p : string) (a : action) :
  Decision (consumes_old p a).
Proof. destruct a; simpl; apply _. Defined.

#[global] Instance consumes_new_dec (p : string) (a : action) :
  Decision (consumes_new p a).
Proof. destruct a; simpl; apply _. Defined.

(** The two halves of the sentence on [Ignore], read with string prefixes:
    the call purges every entry and every root under the path, and a later
    listing pass brings none of them back. *)
Definition purges_prefix (os : OS) (w : Watcher) (p : string) : Prop :=
  forall q k, Abs os p = Ok q -> HasPrefix k q = true ->
    files (Watcher.Ignore os w [p]).1 !! k = None
    /\ names (Watcher.Ignore os w [p]).1 !! k = None.

Definition never_relists_prefix (os : OS) (fuel : nat)
    (rn : gmap string bool -> list (string * bool)) (w : Watcher) (p : string)
  : Prop :=
  forall q k w' fl errs, Abs os p = Ok q -> HasPrefix k q = true ->
    Watcher.retrieveFileList os fuel rn (Watcher.Ignore os w [p]).1
    = Some (w', fl, errs) ->
    fl !! k = None.

(** ** Concrete watchers *)

(** The watcher after [AddRecursive("/a")] on the small tree. *)
Definition watching_a : Watcher :=
  match Watcher.AddRecursive unix 5 New "/a" with
  | Some (w, None) => w
  | _ => New
  end.

(** Two events of one cycle and one of the next. *)
Definition ev1 : Event := mkEvent Write "/a/bc" (file "bc").
Definition ev2 : Event := mkEvent Chmod "/a/bc" (file "bc").
Definition ev3 : Event := mkEvent Create "/a/new" (file "new").

(** A watcher of [/a] that forwards only writes and permission changes, one
    event per cycle, and what its loop receives in two cycles. *)
Definition capped_watcher : Watcher :=
  SetMaxEvents (FilterOps watching_a [Write; Chmod]) 1.

Definition two_inboxes : list (list Watcher.msg) :=
  [ [Watcher.OnEvt ev3; Watcher.OnEvt ev1; Watcher.OnEvt ev2; Watcher.OnDone];
    [Watcher.OnEvt ev2; Watcher.OnDone] ].

Definition after_two_cycles : Watcher :=
  match Watcher.cycles unix 5 names_fixed capped_watcher two_inboxes with
  | Some (w, _) => w
  | None => New
  end.

(** A snapshot of one file, and the same file with another size. *)
Definition one_file : gmap string FileInfo := {[ "/a/bc" := file "bc" ]}.
Definition one_file_grown : gmap string FileInfo :=
  {[ "/a/bc" := mkFileInfo "bc" 11 420 T0 false ]}.

(** One file gone and one file new, with the metadata of the old one: in
    the same directory, or in another one. *)
Definition old_x : gmap string FileInfo := {[ "/a/x" := file "x" ]}.
Definition new_y : gmap string FileInfo := {[ "/a/y" := file "y" ]}.
Definition new_bx : gmap string FileInfo := {[ "/b/x" := file "x" ]}.

(** One file gone and two files new with its metadata. *)
Definition new_yz : gmap string FileInfo :=
  <[ "/a/y" := file "y" ]> {[ "/a/z" := file "z" ]}.

(** The watcher after [Add("/a/b/c")], the watcher after [Ignore("/a")], and
    a watcher that suppresses hidden files. *)
Definition watching_c : Watcher := (Watcher.Add unix New "/a/b/c").1.
Definition ignoring_a : Watcher := (Watcher.Ignore unix New ["/a"]).1.
Definition hiding : Watcher := IgnoreHiddenFiles New true.


(** ** The names of the kinds *)

(** [var ops], the map from a kind to its name (the field [ops] of [Watcher]
    has the same name in the source). *)
Definition op_names : gmap Op string :=
  list_to_map [ (Create, "CREATE"); (Write, "WRITE"); (Remove, "REMOVE");
                (Rename, "RENAME"); (Chmod, "CHMOD"); (Move, "MOVE") ].

(** [func (e Op) String() string] *)
Definition Op_String (e : Op) : string :=
  match op_names !! e with
  | Some op => op
  | None => "???"
  end.

(** ** More vocabulary *)

(** The Write and the Chmod of a path. *)
Definition is_write (p : string) (a : action) : Prop :=
  match a with AWrite q _ => q = p | _ => False end.

Definition is_chmod (p : string) (a : action) : Prop :=
  match a with AChmod q _ => q = p | _ => False end.

#[global] Instance is_write_dec (p : string) (a : action) : Decision (is_write p a).
Proof. destruct a; simpl; apply _. Defined.

#[global] Instance is_chmod_dec (p : string) (a : action) : Decision (is_chmod p a).
Proof. destruct a; simpl; apply _. Defined.

(** ** More concrete values *)

(** What [list("/a")] returns on the small tree when hidden files are
    suppressed. *)
Definition listing_a : gmap string FileInfo :=
  <[ "/a" := dir "a" ]> (<[ "/a/b" := dir "b" ]> {[ "/a/bc" := file "bc" ]}).

(** What [listRecursive("/a")] returns there. *)
Definition listing_a_deep : gmap string FileInfo :=
  <[ "/a" := dir "a" ]> (<[ "/a/b" := dir "b" ]> (<[ "/a/b/c" := file "c" ]>
    {[ "/a/bc" := file "bc" ]})).

(** The watcher of [/a] with a second root whose path is gone. *)
Definition watching_gone : Watcher :=
  set_names watching_a (<[ "/gone" := false ]> (names watching_a)).

(** A file whose modification time has changed, with its mode kept. *)
Definition one_file_touched : gmap string FileInfo :=
  {[ "/a/bc" := mkFileInfo "bc" 10 420 T1 false ]}.

(** The paths a walk from [p] can reach: [p] itself, and [filepath.Join] of
    a reached path with a name that [readDirNames] gives for it. *)
Inductive walked (os : OS) (p : string) : string -> Prop :=
  | walked_root : walked os p p
  | walked_child (a : string) (l : Datatypes.list string) (b : string) :
      walked os p a -> readDirNames os a = Ok l -> b ∈ l ->
      walked os p (Join os a b).

(** In every directory that a walk from [p] can reach, the path of a child
    is that of the directory and more.  So it is for [filepath.Join] of a
    clean path, which [filepath.Abs] returns, and the name of a directory
    entry. *)
Definition Join_extends (os : OS) (p : string) : Prop :=
  forall a l b, walked os p a -> readDirNames os a = Ok l -> b ∈ l ->
    HasPrefix (Join os a b) a = true
    /\ (String.length a < String.length (Join os a b))%nat.

(** The paths strictly below [p]. *)
Definition below (p path : string) : Prop :=
  HasPrefix path p = true /\ (String.length p < String.length path)%nat.

(** The paths that a walk from [p] reaches after its root. *)
Definition reached_below (os : OS) (p path : string) : Prop :=
  below p path /\ walked os p path.

(** What a walk from [p] keeps true of the map, once the root is in it or
    not: every key is [p] or below [p], and the entry of [p] is not
    touched. *)
Definition rooted (p : string) (o : option FileInfo) (fl : gmap string FileInfo)
  : Prop :=
  fl !! p = o /\ forall k, is_Some (fl !! k) -> HasPrefix k p = true.

(** Decides a [filter] over a list whose elements are known. *)
Ltac filter_known :=
  repeat first
    [ rewrite filter_nil
    | rewrite filter_cons_True by (simpl; done)
    | rewrite filter_cons_False by (simpl; tauto) ].

(** * Properties *)

(** ** Strings *)

Lemma HasPrefix_refl (s : string) : HasPrefix s s = true.
Proof.
  unfold HasPrefix. induction s as [|c s IH]; simpl; [done|].
  destruct (Ascii.ascii_dec c c); [done | congruence].
Qed.

(** ** [RemoveRecursive] and [Ignore] *)

Section IgnoreFacts.
Context (os : OS).

Lemma RemoveRecursive_ok (w : Watcher) (name q : string) :
  Abs os name = Ok q ->
  Watcher.RemoveRecursive os w name
  = (mkWatcher (runnning w) (delete q (names w)) (purged w q) (ignored w)
               (ops w) (ignoreHidden w) (maxEvents w) (wg w), None).
Proof.
  intros Hq. unfold Watcher.RemoveRecursive, purged. rewrite Hq. simpl.
  destruct (files w !! q) as [info|]; [|done].
  destruct (IsDir info); done.
Qed.

Lemma RemoveRecursive_err (w : Watcher) (name : string) (e : error) :
  Abs os name = Err e -> Watcher.RemoveRecursive os w name = (w, Some e).
Proof. intros Hq. unfold Watcher.RemoveRecursive. by rewrite Hq. Qed.

Lemma purged_subseteq (w : Watcher) (q : string) : purged w q ⊆ files w.
Proof.
  unfold purged. destruct (files w !! q) as [info|]; [|done].
  destruct (IsDir info); [apply map_filter_subseteq | apply delete_subseteq].
Qed.

Lemma purged_self (w : Watcher) (q : string) : purged w q !! q = None.
Proof.
  unfold purged. destruct (files w !! q) as [info|] eqn:E; [|done].
  destruct (IsDir info).
  - apply map_lookup_filter_None. right. intros x _. simpl.
    rewrite HasPrefix_refl. done.
  - apply lookup_delete_eq.
Qed.

Lemma Ignore_cons_ok (w : Watcher) (p q : string) (rest : list string) :
  Abs os p = Ok q -> Abs os q = Ok q ->
  Watcher.Ignore os w (p :: rest) = Watcher.Ignore os (ignore_one w q) rest.
Proof.
  intros Hp Hq. simpl. rewrite Hp, (RemoveRecursive_ok _ _ _ Hq). done.
Qed.

Lemma Ignore_cons_err (w : Watcher) (p : string) (rest : list string) (e : error) :
  Abs os p = Err e \/ (exists q, Abs os p = Ok q /\ Abs os q = Err e) ->
  Watcher.Ignore os w (p :: rest) = (w, Some e).
Proof.
  intros [Hp | (q & Hp & Hq)]; simpl; rewrite Hp; [done|].
  by rewrite (RemoveRecursive_err _ _ _ Hq).
Qed.

(** A later turn of the loop undoes nothing of an earlier one. *)
Lemma Ignore_keeps (paths : list string) : forall (w w' : Watcher) (q : string),
  Forall (resolves os) paths ->
  Watcher.Ignore os w paths = (w', None) ->
  (q ∈ ignored w -> q ∈ ignored w')
  /\ (names w !! q = None -> names w' !! q = None)
  /\ (files w !! q = None -> files w' !! q = None).
Proof.
  induction paths as [|p paths IH]; intros w w' q Hall Hrun.
  - simpl in Hrun. by inversion Hrun.
  - inversion Hall as [|? ? (x & Hp & Hx) Hall']; subst.
    rewrite (Ignore_cons_ok _ _ _ _ Hp Hx) in Hrun.
    destruct (IH _ _ q Hall' Hrun) as (Hi & Hn & Hf).
    split; [|split].
    + intros Hq. apply Hi. simpl. apply elem_of_union. by right.
    + intros Hq. apply Hn. simpl.
      destruct (decide (x = q)) as [->|Hne];
        [apply lookup_delete_eq | by rewrite lookup_delete_ne].
    + intros Hq. apply Hf. simpl.
      eapply lookup_weaken_None; [exact Hq | apply purged_subseteq].
Qed.

Lemma Ignore_all_ok (paths : list string) : forall (w : Watcher),
  Forall (resolves os) paths ->
  exists w', Watcher.Ignore os w paths = (w', None).
Proof.
  induction paths as [|p paths IH]; intros w Hall; [by eexists|].
  inversion Hall as [|? ? (x & Hp & Hx) Hall']; subst.
  rewrite (Ignore_cons_ok _ _ _ _ Hp Hx). by apply IH.
Qed.

Lemma Ignore_purges (paths : list string) : forall (w w' : Watcher) (p q : string),
  Forall (resolves os) paths ->
  Watcher.Ignore os w paths = (w', None) ->
  p ∈ paths -> Abs os p = Ok q ->
  q ∈ ignored w' /\ names w' !! q = None /\ files w' !! q = None.
Proof.
  induction paths as [|p0 paths IH]; intros w w' p q Hall Hrun Hin Hp.
  - by apply elem_of_nil in Hin.
  - inversion Hall as [|? ? (x & Hp0 & Hx) Hall']; subst.
    rewrite (Ignore_cons_ok _ _ _ _ Hp0 Hx) in Hrun.
    apply elem_of_cons in Hin as [->|Hin]; [|by eapply IH].
    rewrite Hp in Hp0. inversion Hp0; subst x.
    destruct (Ignore_keeps _ _ _ q Hall' Hrun) as (Hi & Hn & Hf).
    split; [|split].
    + apply Hi. simpl. apply elem_of_union. left. by apply elem_of_singleton.
    + apply Hn. simpl. apply lookup_delete_eq.
    + apply Hf. simpl. apply purged_self.
Qed.

Lemma Ignore_ignored (paths : list string) : forall (w w' : Watcher) (q : string),
  Forall (resolves os) paths ->
  Watcher.Ignore os w paths = (w', None) ->
  q ∈ ignored w' <-> q ∈ ignored w \/ exists p, p ∈ paths /\ Abs os p = Ok q.
Proof.
  induction paths as [|p0 paths IH]; intros w w' q Hall Hrun.
  - simpl in Hrun. inversion Hrun; subst. split; [by left|].
    intros [H | (p & Hin & _)]; [done | by apply elem_of_nil in Hin].
  - inversion Hall as [|? ? (x & Hp0 & Hx) Hall']; subst.
    rewrite (Ignore_cons_ok _ _ _ _ Hp0 Hx) in Hrun.
    rewrite (IH _ _ q Hall' Hrun). simpl. split.
    + intros [H | (p & Hin & Hp)].
      * apply elem_of_union in H as [H|H]; [|by left].
        apply elem_of_singleton in H as ->. right. exists p0.
        split; [apply elem_of_cons; by left | done].
      * right. exists p. split; [apply elem_of_cons; by right | done].
    + intros [H | (p & Hin & Hp)].
      * left. apply elem_of_union. by right.
      * apply elem_of_cons in Hin as [->|Hin].
        -- left. rewrite Hp in Hp0. inversion Hp0.
           apply elem_of_union. left. by apply elem_of_singleton.
        -- right. by exists p.
Qed.

Lemma Ignore_app_err (pre : list string) : forall (w w1 : Watcher) p post e,
  Forall (resolves os) pre ->
  Watcher.Ignore os w pre = (w1, None) ->
  Abs os p = Err e \/ (exists q, Abs os p = Ok q /\ Abs os q = Err e) ->
  Watcher.Ignore os w (pre ++ p :: post) = (w1, Some e).
Proof.
  induction pre as [|p0 pre IH]; intros w w1 p post e Hall Hrun Hp.
  - simpl in Hrun. inversion Hrun; subst. by apply Ignore_cons_err.
  - inversion Hall as [|? ? (x & Hp0 & Hx) Hall']; subst.
    rewrite (Ignore_cons_ok _ _ _ _ Hp0 Hx) in Hrun.
    rewrite <- app_comm_cons, (Ignore_cons_ok _ _ _ _ Hp0 Hx). by apply IH.
Qed.
End IgnoreFacts.

(** C10: [Ignore] is not atomic.  When every path before [p] resolves and
    resolving [p] fails with [e], in [Ignore] itself or in the
    [RemoveRecursive] it calls, [Ignore] returns [e] from the state that
    ignoring the earlier paths alone produces: each of them is in the ignore
    set and neither a root nor a snapshot key, and the ignore set has grown
    by the earlier paths only, so that [p] and the later paths were not
    added by this call. *)
Theorem Ignore_not_atomic (os : OS) (w : Watcher) (pre : list string)
    (p : string) (post : list string) (e : error) :
  Forall (resolves os) pre ->
  Abs os p = Err e \/ (exists q, Abs os p = Ok q /\ Abs os q = Err e) ->
  exists w1,
    Watcher.Ignore os w pre = (w1, None)
    /\ Watcher.Ignore os w (pre ++ p :: post) = (w1, Some e)
    /\ (forall x q, x ∈ pre -> Abs os x = Ok q ->
          q ∈ ignored w1 /\ names w1 !! q = None /\ files w1 !! q = None)
    /\ (forall q, q ∈ ignored w1 <->
          q ∈ ignored w \/ exists x, x ∈ pre /\ Abs os x = Ok q).
Proof.
  intros Hall Hp.
  destruct (Ignore_all_ok os pre w Hall) as [w1 Hrun].
  exists w1. split; [done|]. split; [by eapply Ignore_app_err|]. split.
  - intros x q Hin Hx. by eapply Ignore_purges.
  - intros q. by apply Ignore_ignored.
Qed.

Lemma Ignore_not_atomic_witness :
  exists w1,
    Watcher.Ignore unix watching_a ["/a/b"] = (w1, None)
    /\ Watcher.Ignore unix watching_a (["/a/b"] ++ "bc" :: ["/a/bc"]) = (w1, Some (ErrOther 2))
    /\ (forall x q, x ∈ ["/a/b"] -> Abs unix x = Ok q ->
          q ∈ ignored w1 /\ names w1 !! q = None /\ files w1 !! q = None)
    /\ (forall q, q ∈ ignored w1 <->
          q ∈ ignored watching_a \/ exists x, x ∈ ["/a/b"] /\ Abs unix x = Ok q).
Proof.
  apply (Ignore_not_atomic unix watching_a ["/a/b"] "bc" ["/a/bc"] (ErrOther 2)).
  - constructor; [|constructor]. exists "/a/b". split; reflexivity.
  - left. reflexivity.
Defined.

(** ** [Start] *)

(** C6: an interval below one nanosecond makes [Start] return
    [ErrDurationTooShort] and leaves the watcher as it was, so that a watcher
    that was not running can still be started; with a valid interval a
    running watcher makes [Start] return [ErrWatcherRunning], again with
    nothing changed and no loop entered: of two calls on a fresh watcher
    only the first one enters the loop. *)
Theorem Start_rejects (w : Watcher) (d : Z) :
  (d < 1 ->
     Watcher.Start_enter w d = (w, Watcher.Returns ErrDurationTooShort)
     /\ (forall d', 1 <= d' -> runnning w = false -> 0 < wg w ->
           (Watcher.Start_enter (Watcher.Start_enter w d).1 d').2 = Watcher.Loops))
  /\ (1 <= d -> runnning w = true ->
        Watcher.Start_enter w d = (w, Watcher.Returns ErrWatcherRunning))
  /\ (1 <= d -> runnning w = false -> 0 < wg w ->
        (Watcher.Start_enter w d).2 = Watcher.Loops
        /\ forall d', 1 <= d' ->
             Watcher.Start_enter (Watcher.Start_enter w d).1 d'
             = ((Watcher.Start_enter w d).1, Watcher.Returns ErrWatcherRunning)).
Proof.
  unfold Watcher.Start_enter. split; [|split].
  - intros Hd. apply Z.ltb_lt in Hd. rewrite Hd. split; [done|].
    intros d' Hd' Hrun Hwg. simpl.
    assert ((d' <? 1) = false) as -> by lia. rewrite Hrun. simpl.
    assert ((wg w - 1 <? 0) = false) as -> by lia. done.
  - intros Hd Hrun. assert ((d <? 1) = false) as -> by lia. by rewrite Hrun.
  - intros Hd Hrun Hwg. assert ((d <? 1) = false) as -> by lia. rewrite Hrun.
    simpl. assert ((wg w - 1 <? 0) = false) as -> by lia. split; [done|].
    intros d' Hd'. simpl. assert ((d' <? 1) = false) as -> by lia. done.
Qed.

Lemma Start_rejects_witness :
  (Watcher.Start_enter New 0 = (New, Watcher.Returns ErrDurationTooShort)
   /\ (Watcher.Start_enter (Watcher.Start_enter New 0).1 1000).2 = Watcher.Loops)
  /\ Watcher.Start_enter (set_runnning New true) 1000
     = (set_runnning New true, Watcher.Returns ErrWatcherRunning)
  /\ ((Watcher.Start_enter New 1000).2 = Watcher.Loops
      /\ Watcher.Start_enter (Watcher.Start_enter New 1000).1 5
         = ((Watcher.Start_enter New 1000).1, Watcher.Returns ErrWatcherRunning)).
Proof.
  split; [|split].
  - destruct (Start_rejects New 0) as [H _].
    destruct H as [H1 H2]; [lia|]. split; [exact H1|].
    apply H2; [lia | reflexivity | reflexivity].
  - destruct (Start_rejects (set_runnning New true) 1000) as (_ & H & _).
    apply H; [lia | reflexivity].
  - destruct (Start_rejects New 1000) as (_ & _ & H).
    destruct H as [H1 H2]; [lia | reflexivity | reflexivity |].
    split; [exact H1 | apply H2; lia].
Defined.

(** ** [Remove] *)

(** C9: on a tracked directory that resolves to [p], [Remove] returns no
    error and the snapshot loses exactly [p] and the entries whose
    [filepath.Dir] is [p]; every other entry, a deeper descendant of [p]
    included, keeps its metadata.  The root [p] leaves the registry, the
    other roots and the ignore set stay. *)
Theorem Remove_frame (os : OS) (w : Watcher) (name p : string) (info : FileInfo) :
  Abs os name = Ok p ->
  files w !! p = Some info ->
  IsDir info = true ->
  exists w',
    Watcher.Remove os w name = (w', None)
    /\ (forall q, files w' !! q
                  = if decide (q = p \/ Dir os q = p) then None else files w !! q)
    /\ names w' = delete p (names w)
    /\ ignored w' = ignored w.
Proof.
  intros Hp Hinfo Hdir. unfold Watcher.Remove. rewrite Hp. simpl.
  rewrite Hinfo, Hdir. simpl. eexists. split; [reflexivity|].
  split; [|done]. intros q. simpl.
  destruct (decide (q = p \/ Dir os q = p)) as [Hq|Hq].
  - apply map_lookup_filter_None. destruct Hq as [->|Hq].
    + left. apply lookup_delete_eq.
    + right. intros x _. simpl. by intros ?.
  - assert (q <> p /\ Dir os q <> p) as [Hne Hd] by tauto.
    destruct (files w !! q) as [x|] eqn:E.
    + apply map_lookup_filter_Some. split; [|done].
      rewrite lookup_delete_ne; done.
    + apply map_lookup_filter_None. left. rewrite lookup_delete_ne; done.
Qed.

Lemma Remove_frame_witness :
  exists w',
    Watcher.Remove unix watching_a "/a" = (w', None)
    /\ (forall q, files w' !! q
                  = if decide (q = "/a" \/ Dir unix q = "/a") then None
                    else files watching_a !! q)
    /\ names w' = delete "/a" (names watching_a)
    /\ ignored w' = ignored watching_a.
Proof.
  apply (Remove_frame unix watching_a "/a" "/a" (dir "a")); reflexivity.
Defined.

(** The nested descendant [/a/b/c] survives [Remove("/a")], the child [/a/b]
    does not. *)
Example Remove_keeps_nested :
  files (Watcher.Remove unix watching_a "/a").1 !! "/a/b/c" = Some (file "c")
  /\ files (Watcher.Remove unix watching_a "/a").1 !! "/a/b" = None.
Proof. split; reflexivity. Qed.

(** ** The inner loop of [Start] *)

Lemma wrap64_small (z : Z) : - 2 ^ 63 <= z < 2 ^ 63 -> Watcher.wrap64 z = z.
Proof.
  intros Hz. unfold Watcher.wrap64.
  rewrite Z.mod_small; lia.
Qed.

Lemma same_config_refl (w : Watcher) : same_config w w.
Proof. by repeat split. Qed.

Lemma same_config_trans (w1 w2 w3 : Watcher) :
  same_config w1 w2 -> same_config w2 w3 -> same_config w1 w3.
Proof.
  intros (?&?&?&?) (?&?&?&?). repeat split; congruence.
Qed.

Lemma Remove_same_config (os : OS) (w : Watcher) (name : string) :
  same_config w (Watcher.Remove os w name).1.
Proof.
  unfold Watcher.Remove. destruct (Abs os name); [|apply same_config_refl].
  simpl. destruct (files w !! a) as [i|]; [|by repeat split].
  destruct (IsDir i); by repeat split.
Qed.

Lemma RemoveRecursive_same_config (os : OS) (w : Watcher) (name : string) :
  same_config w (Watcher.RemoveRecursive os w name).1.
Proof.
  unfold Watcher.RemoveRecursive. destruct (Abs os name); [|apply same_config_refl].
  simpl. destruct (files w !! a) as [i|]; [|by repeat split].
  destruct (IsDir i); by repeat split.
Qed.

Lemma retrieve_step_same_config (os : OS) (fuel : nat) (w w' : Watcher)
    (fl fl' : gmap string FileInfo) (errs errs' : list error) (nr : string * bool) :
  Watcher.retrieve_step os fuel (Some (w, fl, errs)) nr = Some (w', fl', errs') ->
  same_config w w'.
Proof.
  unfold Watcher.retrieve_step. destruct (nr.2).
  - destruct (Watcher.listRecursive os fuel w nr.1) as [[l [e|]]|]; [| |done].
    + destruct (IsNotExist e); intros [= <- _ _];
        [apply RemoveRecursive_same_config | apply same_config_refl].
    + intros [= <- _ _]. apply same_config_refl.
  - destruct (Watcher.list os w nr.1) as [l|e].
    + intros [= <- _ _]. apply same_config_refl.
    + destruct (IsNotExist e); intros [= <- _ _];
        [apply Remove_same_config | apply same_config_refl].
Qed.

Lemma retrieve_fold_None (os : OS) (fuel : nat) (l : list (string * bool)) :
  fold_left (Watcher.retrieve_step os fuel) l None = None.
Proof. induction l; simpl; done. Qed.

Lemma retrieve_fold_same_config (os : OS) (fuel : nat) (l : list (string * bool)) :
  forall w fl errs w' fl' errs',
    fold_left (Watcher.retrieve_step os fuel) l (Some (w, fl, errs))
    = Some (w', fl', errs') ->
    same_config w w'.
Proof.
  induction l as [|nr l IH]; intros w fl errs w' fl' errs' Hrun.
  - simpl in Hrun. inversion Hrun; subst. apply same_config_refl.
  - cbn [fold_left] in Hrun.
    destruct (Watcher.retrieve_step os fuel (Some (w, fl, errs)) nr)
      as [[[w1 fl1] errs1]|] eqn:Hstep.
    + eapply same_config_trans;
        [by eapply retrieve_step_same_config | by eapply IH].
    + by rewrite retrieve_fold_None in Hrun.
Qed.

Lemma retrieveFileList_same_config (os : OS) (fuel : nat)
    (rn : gmap string bool -> list (string * bool)) (w w' : Watcher)
    (fl : gmap string FileInfo) (errs : list error) :
  Watcher.retrieveFileList os fuel rn w = Some (w', fl, errs) -> same_config w w'.
Proof. apply retrieve_fold_same_config. Qed.

(** An event outside a filter that is set is dropped with the counter as it
    was. *)
Lemma dispatch_filtered (w : Watcher) (c : Z) (event : Event) (rest : list Watcher.msg) :
  passes w event = false ->
  Watcher.dispatch w c (Watcher.OnEvt event :: rest) = Watcher.dispatch w c rest.
Proof.
  unfold passes. intros H. apply negb_false_iff in H. simpl. by rewrite H.
Qed.

(** Without a positive cap the counter decides nothing. *)
Lemma dispatch_uncapped (w : Watcher) (inbox : list Watcher.msg) : forall c,
  maxEvents w <= 0 ->
  (Watcher.dispatch w c inbox).1 = filter (passes w) (received inbox).
Proof.
  induction inbox as [|m inbox IH]; intros c Hn; [done|].
  destruct m as [|event|]; [done| |done].
  simpl received. destruct (passes w event) eqn:Hp.
  - rewrite filter_cons_True by (by rewrite Hp).
    unfold passes in Hp. apply negb_true_iff in Hp. simpl. rewrite Hp.
    assert ((0 <? maxEvents w) = false) as -> by lia. simpl. f_equal. by apply IH.
  - rewrite filter_cons_False by (rewrite Hp; simpl; tauto).
    rewrite dispatch_filtered by done. by apply IH.
Qed.

(** With a positive cap the loop forwards until the counter passes it. *)
Lemma dispatch_capped (w : Watcher) (inbox : list Watcher.msg) : forall c,
  0 < maxEvents w -> 0 <= c <= maxEvents w ->
  maxEvents w < 2 ^ 63 - 1 \/ c + Z.of_nat (length inbox) < 2 ^ 63 ->
  (Watcher.dispatch w c inbox).1
  = take (Z.to_nat (maxEvents w - c)) (filter (passes w) (received inbox)).
Proof.
  induction inbox as [|m inbox IH]; intros c Hn Hc Hw;
    [by (simpl; rewrite ?filter_nil, take_nil)|].
  destruct m as [|event|];
    [by (simpl; rewrite ?filter_nil, take_nil)| |
     by (simpl; rewrite ?filter_nil, take_nil)].
  simpl received. simpl length in Hw. destruct (passes w event) eqn:Hp.
  - rewrite filter_cons_True by (by rewrite Hp).
    unfold passes in Hp. apply negb_true_iff in Hp. simpl. rewrite Hp.
    assert (- 2 ^ 63 <= c + 1 < 2 ^ 63) as Hsmall by (destruct Hw; lia).
    rewrite (wrap64_small _ Hsmall).
    assert ((0 <? maxEvents w) = true) as -> by lia. simpl.
    destruct (decide (c = maxEvents w)) as [->|Hne].
    + assert ((maxEvents w <? maxEvents w + 1) = true) as -> by lia.
      rewrite Z.sub_diag. done.
    + assert ((maxEvents w <? c + 1) = false) as -> by lia. simpl.
      rewrite IH by (try destruct Hw; lia).
      replace (Z.to_nat (maxEvents w - c))
        with (S (Z.to_nat (maxEvents w - (c + 1)))) by lia.
      done.
  - rewrite filter_cons_False by (rewrite Hp; simpl; tauto).
    rewrite dispatch_filtered by done.
    apply IH; [done|done|]. destruct Hw; [by left | right; lia].
Qed.

Lemma dispatch_sent (w : Watcher) (inbox : list Watcher.msg) :
  maxEvents w < 2 ^ 63 - 1 \/ Z.of_nat (length inbox) < 2 ^ 63 ->
  (Watcher.dispatch w 0 inbox).1 = capped w (filter (passes w) (received inbox)).
Proof.
  intros Hw. unfold capped. destruct (0 <? maxEvents w) eqn:Hn.
  - rewrite dispatch_capped; [by rewrite Z.sub_0_r | lia | lia |].
    destruct Hw; [by left | right; lia].
  - apply dispatch_uncapped. lia.
Qed.

(** Nothing in [Start] sends on [evt]: the goroutine of a turn only sends
    on [done].  A turn that receives no event forwards none. *)
Lemma dispatch_without_events (w : Watcher) (c : Z) (inbox : list Watcher.msg) :
  received inbox = [] -> (Watcher.dispatch w c inbox).1 = [].
Proof.
  destruct inbox as [|[|event|] rest]; simpl; intros H; done.
Qed.

Lemma capped_length (w : Watcher) (l : list Event) :
  0 < maxEvents w -> Z.of_nat (length (capped w l)) <= maxEvents w.
Proof.
  intros Hn. unfold capped. assert ((0 <? maxEvents w) = true) as -> by lia.
  rewrite length_take. lia.
Qed.

Lemma capped_elem (w : Watcher) (l : list Event) (event : Event) :
  event ∈ capped w l -> event ∈ l.
Proof.
  unfold capped. destruct (0 <? maxEvents w); [|done].
  apply subseteq_take.
Qed.

Lemma dispatch_config (w1 w : Watcher) (inbox : list Watcher.msg) : forall c,
  ops w1 = ops w -> maxEvents w1 = maxEvents w ->
  Watcher.dispatch w1 c inbox = Watcher.dispatch w c inbox.
Proof.
  induction inbox as [|m inbox IH]; intros c Ho Hm; [done|].
  destruct m as [|event|]; [done| |done].
  simpl. rewrite Ho, Hm. rewrite !IH by done. done.
Qed.

Lemma cycle_sent (os : OS) (fuel : nat)
    (rn : gmap string bool -> list (string * bool)) (w w' : Watcher)
    (inbox : list Watcher.msg) (errs : list error) (out : list Event)
    (e : Watcher.ending) :
  maxEvents w < 2 ^ 63 - 1 \/ Z.of_nat (length inbox) < 2 ^ 63 ->
  Watcher.cycle os fuel rn w inbox = Some (w', errs, out, e) ->
  out = capped w (filter (passes w) (received inbox)) /\ same_config w w'.
Proof.
  intros Hw. unfold Watcher.cycle.
  destruct (Watcher.retrieveFileList os fuel rn w) as [[[w1 fl] errs1]|] eqn:Hr;
    [|done].
  apply retrieveFileList_same_config in Hr. destruct Hr as (Ho & Hm & Hi & Hh).
  rewrite (dispatch_config w1 w) by done.
  rewrite <- (dispatch_sent w inbox Hw).
  destruct (Watcher.dispatch w 0 inbox).2; intros [= <- _ <- _];
    (split; [done | by repeat split]).
Qed.

(** C5: in every cycle of the loop of [Start] an event whose kind is outside
    a filter that is set is dropped and the counter stays as it was, and the
    events forwarded in a cycle are the events that this cycle received and
    that pass the filter, cut after the first [maxEvents] of them when the
    cap is positive: at most [maxEvents] events, and none of an earlier
    cycle.  (The counter is an [int]: the cap is below the largest [int], or
    no cycle receives [2^63] events.) *)
Theorem cycles_filter_cap (os : OS) (fuel : nat)
    (rn : gmap string bool -> list (string * bool)) (w w' : Watcher)
    (inboxes : list (list Watcher.msg)) (outs : list (list Event)) :
  maxEvents w < 2 ^ 63 - 1
  \/ Forall (fun inbox => Z.of_nat (length inbox) < 2 ^ 63) inboxes ->
  Watcher.cycles os fuel rn w inboxes = Some (w', outs) ->
  (forall c event rest, ops w <> ∅ -> EvOp event ∉ ops w ->
     Watcher.dispatch w c (Watcher.OnEvt event :: rest) = Watcher.dispatch w c rest)
  /\ Forall2 (fun inbox out =>
         out = capped w (filter (passes w) (received inbox))
         /\ (0 < maxEvents w -> Z.of_nat (length out) <= maxEvents w))
       (take (length outs) inboxes) outs.
Proof.
  intros Hw Hrun. split.
  - intros c event rest Hops Hev. apply dispatch_filtered. unfold passes.
    rewrite (bool_decide_eq_true_2 _ Hops), (bool_decide_eq_false_2 _ Hev). done.
  - revert w w' outs Hw Hrun.
    induction inboxes as [|inbox inboxes IH]; intros w w' outs Hw Hrun.
    + simpl in Hrun. inversion Hrun; subst. constructor.
    + cbn [Watcher.cycles] in Hrun.
      destruct (Watcher.cycle os fuel rn w inbox) as [[[[w1 errs] out] e]|] eqn:Hc;
        [|done].
      assert (maxEvents w < 2 ^ 63 - 1 \/ Z.of_nat (length inbox) < 2 ^ 63) as Hw1.
      { destruct Hw as [Hw|Hw]; [by left|]. right. by inversion Hw. }
      destruct (cycle_sent _ _ _ _ _ _ _ _ _ Hw1 Hc) as [-> (Ho & Hm & _)].
      assert (forall l : list Event,
                 (0 < maxEvents w -> Z.of_nat (length (capped w l)) <= maxEvents w))
        as Hlen by (intros l Hn; by apply capped_length).
      destruct e.
      * inversion Hrun; subst. simpl. rewrite take_0.
        constructor; [split; [done | apply Hlen] | constructor].
      * destruct (Watcher.cycles os fuel rn w1 inboxes) as [[w2 outs']|] eqn:Hrest;
          [|done].
        inversion Hrun; subst. simpl. constructor; [split; [done | apply Hlen]|].
        assert (maxEvents w1 < 2 ^ 63 - 1
                \/ Forall (fun inbox => Z.of_nat (length inbox) < 2 ^ 63) inboxes)
          as Hw2.
        { destruct Hw as [Hw|Hw]; [left; by rewrite Hm | right; by inversion Hw]. }
        specialize (IH _ _ _ Hw2 Hrest). unfold capped, passes in *.
        rewrite Ho, Hm in IH. exact IH.
      * destruct (Watcher.cycles os fuel rn w1 inboxes) as [[w2 outs']|] eqn:Hrest;
          [|done].
        inversion Hrun; subst. simpl. constructor; [split; [done | apply Hlen]|].
        assert (maxEvents w1 < 2 ^ 63 - 1
                \/ Forall (fun inbox => Z.of_nat (length inbox) < 2 ^ 63) inboxes)
          as Hw2.
        { destruct Hw as [Hw|Hw]; [left; by rewrite Hm | right; by inversion Hw]. }
        specialize (IH _ _ _ Hw2 Hrest). unfold capped, passes in *.
        rewrite Ho, Hm in IH. exact IH.
      * inversion Hrun; subst. simpl. rewrite take_0.
        constructor; [split; [done | apply Hlen] | constructor].
Qed.

Lemma cycles_filter_cap_witness :
  Watcher.cycles unix 5 names_fixed capped_watcher two_inboxes
  = Some (after_two_cycles, [[ev1]; [ev2]])
  /\ (forall c event rest, ops capped_watcher <> ∅ -> EvOp event ∉ ops capped_watcher ->
        Watcher.dispatch capped_watcher c (Watcher.OnEvt event :: rest)
        = Watcher.dispatch capped_watcher c rest)
  /\ Forall2 (fun inbox out =>
         out = capped capped_watcher (filter (passes capped_watcher) (received inbox))
         /\ (0 < maxEvents capped_watcher ->
             Z.of_nat (length out) <= maxEvents capped_watcher))
       (take (length [[ev1]; [ev2]]) two_inboxes) [[ev1]; [ev2]].
Proof.
  assert (Watcher.cycles unix 5 names_fixed capped_watcher two_inboxes
          = Some (after_two_cycles, [[ev1]; [ev2]])) as Hrun
    by (vm_compute; reflexivity).
  split; [exact Hrun|].
  apply (cycles_filter_cap unix 5 names_fixed capped_watcher after_two_cycles
           two_inboxes [[ev1]; [ev2]]); [left; reflexivity | exact Hrun].
Defined.

(** ** The diff *)

Lemma range_fixed_any_order : any_order range_fixed.
Proof. intros n m. done. Qed.

Section DiffFacts.
Context (os : OS).
Variable range : nat -> gmap string FileInfo -> list (string * FileInfo).

Lemma pair_step_sent (path1 : string) (info1 : FileInfo) (st : pairing)
    (kv2 : string * FileInfo) :
  Forall is_pair (p_sent st) ->
  Forall is_pair (p_sent (pair_step os path1 info1 st kv2)).
Proof.
  intros H. unfold pair_step. destruct (sameFile os info1 kv2.2); [|done].
  simpl. apply Forall_app. split; [done|]. by constructor.
Qed.

Lemma pair_fold_sent (path1 : string) (info1 : FileInfo)
    (l : list (string * FileInfo)) : forall st,
  Forall is_pair (p_sent st) ->
  Forall is_pair (p_sent (fold_left (pair_step os path1 info1) l st)).
Proof.
  induction l as [|kv2 l IH]; intros st H; [done|].
  simpl. apply IH. by apply pair_step_sent.
Qed.

Lemma pair_outer_sent (l : list (string * FileInfo)) : forall k st,
  Forall is_pair (p_sent st) ->
  Forall is_pair (p_sent (pair_outer os range k l st)).
Proof.
  induction l as [|kv1 l IH]; intros k st H; [done|].
  simpl. apply IH. unfold pair_inner. by apply pair_fold_sent.
Qed.

Lemma changes_at_ops (old : gmap string FileInfo) (kv : string * FileInfo) :
  Forall (fun a => EvOp (event_of os a) = Write \/ EvOp (event_of os a) = Chmod)
         (changes_at old kv).
Proof.
  unfold changes_at. destruct (old !! kv.1) as [oldInfo|]; [|constructor].
  apply Forall_app. split.
  - destruct (decide (ModTime oldInfo <> ModTime kv.2));
      [apply Forall_singleton; by left | constructor].
  - destruct (decide (Mode oldInfo <> Mode kv.2));
      [apply Forall_singleton; by right | constructor].
Qed.

Lemma changes_ops (old new : gmap string FileInfo) :
  Forall (fun a => EvOp (event_of os a) = Write \/ EvOp (event_of os a) = Chmod)
         (changes range old new).
Proof.
  unfold changes. induction (range 0%nat new) as [|kv l IH]; [constructor|].
  simpl. apply Forall_app. split; [apply changes_at_ops | exact IH].
Qed.

Lemma pair_ops (a : action) :
  is_pair a -> EvOp (event_of os a) = Rename \/ EvOp (event_of os a) = Move.
Proof.
  destruct a; simpl; try done. intros _.
  destruct (decide (Dir os path1 = Dir os path2)); [by left | by right].
Qed.
End DiffFacts.

Lemma sorted_by_rank (l1 l2 l3 l4 : list Event) :
  Forall (fun e => EvOp e = Write \/ EvOp e = Chmod) l1 ->
  Forall (fun e => EvOp e = Rename \/ EvOp e = Move) l2 ->
  Forall (fun e => EvOp e = Create) l3 ->
  Forall (fun e => EvOp e = Remove) l4 ->
  StronglySorted (fun e1 e2 => (rank (EvOp e1) <= rank (EvOp e2))%nat)
                 (l1 ++ l2 ++ l3 ++ l4).
Proof.
  intros H1 H2 H3 H4.
  assert (forall (k : nat) (l : list Event),
             Forall (fun e => rank (EvOp e) = k) l ->
             StronglySorted (fun e1 e2 => (rank (EvOp e1) <= rank (EvOp e2))%nat) l)
    as Hconst.
  { intros k l Hl. induction Hl as [|e l He Hl IH]; constructor; [done|].
    eapply Forall_impl; [exact Hl|]. intros e' He'. simpl in He'. lia. }
  assert (Forall (fun e => rank (EvOp e) = 0%nat) l1) as R1.
  { eapply Forall_impl; [exact H1|]. by intros e [->| ->]. }
  assert (Forall (fun e => rank (EvOp e) = 1%nat) l2) as R2.
  { eapply Forall_impl; [exact H2|]. by intros e [->| ->]. }
  assert (Forall (fun e => rank (EvOp e) = 2%nat) l3) as R3.
  { eapply Forall_impl; [exact H3|]. by intros e ->. }
  assert (Forall (fun e => rank (EvOp e) = 3%nat) l4) as R4.
  { eapply Forall_impl; [exact H4|]. by intros e ->. }
  assert (forall (k : nat) (la lb : list Event),
             Forall (fun e => rank (EvOp e) = k) la ->
             Forall (fun e => (k <= rank (EvOp e))%nat) lb ->
             StronglySorted (fun e1 e2 => (rank (EvOp e1) <= rank (EvOp e2))%nat) lb ->
             StronglySorted (fun e1 e2 => (rank (EvOp e1) <= rank (EvOp e2))%nat)
                            (la ++ lb))
    as Hstep.
  { intros k la lb Ha Hb Hs. apply StronglySorted_app. split; [|split].
    - rewrite Forall_forall in Ha, Hb. intros x1 x2 Hx1 Hx2.
      rewrite (Ha _ Hx1). by apply Hb.
    - by apply (Hconst k).
    - done. }
  apply (Hstep 0%nat); [done| |].
  { rewrite !Forall_app. repeat split; eapply Forall_impl; eauto;
      intros e He; simpl in *; lia. }
  apply (Hstep 1%nat); [done| |].
  { rewrite !Forall_app. repeat split; eapply Forall_impl; eauto;
      intros e He; simpl in *; lia. }
  apply (Hstep 2%nat); [done| |].
  { eapply Forall_impl; eauto. intros e He; simpl in *; lia. }
  by apply (Hconst 3%nat).
Qed.

(** C4: the events of one diff come in four runs, in this order: the Write
    and Chmod events, the Rename and Move events, the Create events of the
    creation candidates left over, the Remove events of the removal
    candidates left over; so no event is sent after one of a later run,
    whatever the order of each [range]. *)
Theorem pollEvents_ordered (os : OS)
    (range : nat -> gmap string FileInfo -> list (string * FileInfo))
    (w : Watcher) (fileList : gmap string FileInfo) :
  (exists l1 l2 l3 l4,
     Watcher.pollEvents os range w fileList = l1 ++ l2 ++ l3 ++ l4
     /\ Forall (fun e => EvOp e = Write \/ EvOp e = Chmod) l1
     /\ Forall (fun e => EvOp e = Rename \/ EvOp e = Move) l2
     /\ Forall (fun e => EvOp e = Create) l3
     /\ Forall (fun e => EvOp e = Remove) l4)
  /\ StronglySorted (fun e1 e2 => (rank (EvOp e1) <= rank (EvOp e2))%nat)
                    (Watcher.pollEvents os range w fileList).
Proof.
  unfold Watcher.pollEvents, pollActions. rewrite !map_app.
  match goal with
  | |- context [map (event_of os) ?a ++ map (event_of os) ?b
                ++ map (event_of os) ?c ++ map (event_of os) ?d] =>
      assert (Forall (fun e => EvOp e = Write \/ EvOp e = Chmod) (map (event_of os) a)
              /\ Forall (fun e => EvOp e = Rename \/ EvOp e = Move) (map (event_of os) b)
              /\ Forall (fun e => EvOp e = Create) (map (event_of os) c)
              /\ Forall (fun e => EvOp e = Remove) (map (event_of os) d))
        as (H1 & H2 & H3 & H4)
  end.
  { repeat split.
    - apply Forall_fmap. apply changes_ops.
    - apply Forall_fmap. eapply Forall_impl; [|apply pair_ops].
      apply pair_outer_sent. constructor.
    - rewrite map_map. apply Forall_fmap. by apply Forall_forall.
    - rewrite map_map. apply Forall_fmap. by apply Forall_forall. }
  split; [|by apply sorted_by_rank].
  eexists _, _, _, _. split; [reflexivity|]. done.
Qed.

Section Unchanged.
Context (os : OS).
Variable range : nat -> gmap string FileInfo -> list (string * FileInfo).
Hypothesis range_any : any_order range.

Lemma range_elem (n : nat) (m : gmap string FileInfo) (kv : string * FileInfo) :
  kv ∈ range n m <-> m !! kv.1 = Some kv.2.
Proof.
  rewrite (range_any n m). destruct kv as [k v]. apply elem_of_map_to_list.
Qed.

Lemma range_empty (n : nat) : range n ∅ = [].
Proof.
  apply Permutation_nil_r. rewrite (range_any n ∅). by rewrite map_to_list_empty.
Qed.

Lemma range_NoDup (n : nat) (m : gmap string FileInfo) : NoDup (range n m).*1.
Proof. rewrite (range_any n m). apply NoDup_fst_map_to_list. Qed.

Lemma removes_of_empty (old new : gmap string FileInfo) :
  dom old ⊆ dom new -> removes_of old new = ∅.
Proof.
  intros Hdom. apply map_empty. intros p. apply map_lookup_filter_None.
  right. intros x Hx. simpl. intros Hnone.
  assert (p ∈ dom new) as Hin by (apply Hdom, elem_of_dom; eauto).
  apply elem_of_dom in Hin as [y Hy]. congruence.
Qed.

Lemma changes_unchanged (old new : gmap string FileInfo) :
  (forall p i1 i2, old !! p = Some i1 -> new !! p = Some i2 ->
                   ModTime i1 = ModTime i2 /\ Mode i1 = Mode i2) ->
  changes range old new = [].
Proof.
  intros Hsame. unfold changes.
  assert (forall kv, kv ∈ range 0%nat new -> changes_at old kv = []) as Hall.
  { intros kv Hkv. apply range_elem in Hkv. unfold changes_at.
    destruct (old !! kv.1) as [oldInfo|] eqn:Hold; [|done].
    destruct (Hsame _ _ _ Hold Hkv) as [Ht Hm].
    destruct (decide (ModTime oldInfo <> ModTime kv.2)); [done|].
    destruct (decide (Mode oldInfo <> Mode kv.2)); done. }
  induction (range 0%nat new) as [|kv l IH]; [done|].
  simpl. rewrite Hall by (apply elem_of_cons; by left).
  apply IH. intros kv' Hkv'. apply Hall. apply elem_of_cons. by right.
Qed.
End Unchanged.

(** C2: when the listing has the paths of the snapshot and every path has the
    modification time and the mode it had, [pollEvents] sends nothing,
    whatever the order of each [range]; so the diff of a snapshot against
    itself is empty. *)
Theorem pollEvents_unchanged (os : OS)
    (range : nat -> gmap string FileInfo -> list (string * FileInfo))
    (w : Watcher) (fileList : gmap string FileInfo) :
  any_order range ->
  dom (files w) = dom fileList ->
  (forall p i1 i2, files w !! p = Some i1 -> fileList !! p = Some i2 ->
                   ModTime i1 = ModTime i2 /\ Mode i1 = Mode i2) ->
  Watcher.pollEvents os range w fileList = []
  /\ Watcher.pollEvents os range w (files w) = [].
Proof.
  assert (forall old new : gmap string FileInfo,
             any_order range -> dom old = dom new ->
             (forall p i1 i2, old !! p = Some i1 -> new !! p = Some i2 ->
                              ModTime i1 = ModTime i2 /\ Mode i1 = Mode i2) ->
             pollActions os range old new = []) as Hgen.
  { intros old new Hrange Hdom Hsame. unfold pollActions, pairs.
    rewrite (changes_unchanged range Hrange old new Hsame).
    rewrite (removes_of_empty old new) by (by rewrite Hdom).
    assert (creates_of old new = ∅) as ->.
    { apply (removes_of_empty new old). by rewrite Hdom. }
    rewrite !(range_empty range Hrange). simpl.
    rewrite ?(range_empty range Hrange). done. }
  intros Hrange Hdom Hsame. unfold Watcher.pollEvents. split.
  - by rewrite Hgen.
  - rewrite Hgen; [done | done | done |].
    intros p i1 i2 H1 H2. rewrite H1 in H2. by inversion H2.
Qed.

Lemma pollEvents_unchanged_witness :
  Watcher.pollEvents unix range_fixed (set_files New one_file) one_file_grown = []
  /\ Watcher.pollEvents unix range_fixed (set_files New one_file)
       (files (set_files New one_file)) = [].
Proof.
  apply (pollEvents_unchanged unix range_fixed (set_files New one_file) one_file_grown).
  - apply range_fixed_any_order.
  - simpl. unfold one_file, one_file_grown. by rewrite !dom_singleton_L.
  - intros p i1 i2 H1 H2. simpl in H1. unfold one_file, one_file_grown in *.
    apply lookup_singleton_Some in H1 as [_ <-].
    apply lookup_singleton_Some in H2 as [_ <-]. split; reflexivity.
Defined.

(** ** The two nested loops of [pollEvents] *)

Section Pairing.
Context (os : OS).
Variable range : nat -> gmap string FileInfo -> list (string * FileInfo).
Hypothesis range_any : any_order range.

Lemma news_app (s1 s2 : list action) : news (s1 ++ s2) = news s1 ++ news s2.
Proof. unfold news. apply omap_app. Qed.

Lemma olds_app (s1 s2 : list action) : olds (s1 ++ s2) = olds s1 ++ olds s2.
Proof. unfold olds. apply omap_app. Qed.

Lemma news_pairs (path1 : string) (info1 : FileInfo) (l : list (string * FileInfo)) :
  news (map (fun kv => APair path1 info1 kv.1) l) = l.*1.
Proof.
  induction l as [|kv l IH]; [done|]. unfold news in *. simpl. by f_equal.
Qed.

Lemma olds_pairs (path1 : string) (info1 : FileInfo)
    (l : list (string * FileInfo)) (p : string) :
  p ∈ olds (map (fun kv => APair path1 info1 kv.1) l) <-> l <> [] /\ p = path1.
Proof.
  induction l as [|kv l IH]; simpl.
  - split; [intros H; by apply elem_of_nil in H | by intros [? _]].
  - unfold olds in *. simpl. rewrite elem_of_cons, IH. split.
    + intros [->|[_ ->]]; done.
    + intros [_ ->]. by left.
Qed.

Lemma hits_nil (info1 : FileInfo) : hits os info1 [] = [].
Proof. done. Qed.

Lemma hits_cons (info1 : FileInfo) (kv : string * FileInfo) l :
  hits os info1 (kv :: l)
  = if sameFile os info1 kv.2 then kv :: hits os info1 l else hits os info1 l.
Proof.
  unfold hits. destruct (sameFile os info1 kv.2) eqn:E.
  - by rewrite filter_cons_True.
  - rewrite filter_cons_False; [done|]. by rewrite E.
Qed.

(** The inner loop, written out. *)
Lemma pair_fold_spec (path1 : string) (info1 : FileInfo)
    (l : list (string * FileInfo)) : forall st,
  let st' := fold_left (pair_step os path1 info1) l st in
  p_sent st' = p_sent st ++ map (fun kv => APair path1 info1 kv.1) (hits os info1 l)
  /\ (forall p, p_creates st' !! p
                = if decide (p ∈ (hits os info1 l).*1) then None
                  else p_creates st !! p)
  /\ (forall p, p_removes st' !! p
                = if decide (hits os info1 l <> [] /\ p = path1) then None
                  else p_removes st !! p).
Proof.
  induction l as [|kv l IH]; intros st; simpl.
  - rewrite app_nil_r.
    split; [done|]. split; intros p; done.
  - destruct (IH (pair_step os path1 info1 st kv)) as (Hs & Hc & Hr).
    rewrite hits_cons.
    destruct (sameFile os info1 kv.2) eqn:Hsame.
    + assert (pair_step os path1 info1 st kv
              = mkPairing (delete path1 (p_removes st)) (delete kv.1 (p_creates st))
                          (p_sent st ++ [APair path1 info1 kv.1])) as Hst
        by (unfold pair_step; by rewrite Hsame).
      rewrite Hst in Hs, Hc, Hr. rewrite Hst. cbn [p_sent p_creates p_removes] in *.
      rewrite Hs, <- app_assoc. split; [done|]. split; intros p.
      * rewrite Hc. destruct (decide (p = kv.1)) as [->|Hne].
        -- rewrite lookup_delete_eq.
           rewrite (decide_True (P := kv.1 ∈ (kv :: hits os info1 l).*1))
             by (by left).
           by case_decide.
        -- rewrite lookup_delete_ne by done.
           case_decide as Hin.
           ++ rewrite decide_True; [done | by right].
           ++ rewrite decide_False; [done|].
              intros [?|?]%elem_of_cons; done.
      * rewrite Hr. destruct (decide (p = path1)) as [->|Hne].
        -- rewrite lookup_delete_eq.
           rewrite (decide_True (P := kv :: hits os info1 l <> [] /\ path1 = path1))
             by done.
           by case_decide.
        -- rewrite lookup_delete_ne by done.
           rewrite !decide_False by (by intros [_ ?]). done.
    + assert (pair_step os path1 info1 st kv = st) as Hst
        by (unfold pair_step; by rewrite Hsame).
      rewrite Hst in Hs, Hc, Hr. rewrite Hst. done.
Qed.

Lemma hits_elem (info1 : FileInfo) (l : list (string * FileInfo)) kv :
  kv ∈ hits os info1 l <-> sameFile os info1 kv.2 = true /\ kv ∈ l.
Proof. unfold hits. by rewrite list_elem_of_filter. Qed.

Lemma hits_NoDup (info1 : FileInfo) (l : list (string * FileInfo)) :
  NoDup l.*1 -> NoDup (hits os info1 l).*1.
Proof.
  intros H. eapply sublist_NoDup; [exact H|].
  apply fmap_sublist. apply sublist_filter.
Qed.

(** One run of the inner loop keeps the invariant, only shrinks [creates],
    and leaves no creation candidate that [sameFile] pairs with [kv1]. *)
Lemma pair_inner_inv (R0 C0 : gmap string FileInfo) (n : nat) (st : pairing)
    (kv1 : string * FileInfo) :
  R0 !! kv1.1 = Some kv1.2 ->
  pairing_inv os R0 C0 st ->
  pairing_inv os R0 C0 (pair_inner os range n st kv1)
  /\ (forall p i2, p_creates (pair_inner os range n st kv1) !! p = Some i2 ->
        p_creates st !! p = Some i2 /\ sameFile os kv1.2 i2 = false).
Proof.
  intros Hkv1 [Hic Hir Hnd Hsent]. unfold pair_inner.
  destruct (pair_fold_spec kv1.1 kv1.2 (range n (p_creates st)) st)
    as (Hs & Hc & Hr).
  set (l := range n (p_creates st)) in *.
  set (st' := fold_left (pair_step os kv1.1 kv1.2) l st) in *.
  assert (forall kv, kv ∈ hits os kv1.2 l ->
            p_creates st !! kv.1 = Some kv.2 /\ sameFile os kv1.2 kv.2 = true)
    as Hl.
  { intros kv [Hsame Hin]%hits_elem. split; [|done].
    by apply (range_elem range range_any) in Hin. }
  assert (forall p, p ∈ (hits os kv1.2 l).*1 -> p ∉ news (p_sent st)) as Hfresh.
  { intros p Hp Hn. apply list_elem_of_fmap in Hp as (kv & -> & Hkv).
    destruct (Hl _ Hkv) as [Hsome _]. rewrite Hic in Hsome.
    by rewrite decide_True in Hsome. }
  split.
  - constructor.
    + intros p. rewrite Hc, Hs, news_app, news_pairs.
      destruct (decide (p ∈ (hits os kv1.2 l).*1)) as [Hin|Hin].
      * rewrite decide_True; [done|]. apply elem_of_app. by right.
      * rewrite Hic. destruct (decide (p ∈ news (p_sent st))) as [Hn|Hn].
        -- rewrite decide_True; [done|]. apply elem_of_app. by left.
        -- rewrite decide_False; [done|]. intros [?|?]%elem_of_app; done.
    + intros p. rewrite Hr, Hs, olds_app.
      destruct (decide (hits os kv1.2 l <> [] /\ p = kv1.1)) as [Hin|Hin].
      * rewrite decide_True; [done|]. apply elem_of_app. right.
        by apply olds_pairs.
      * rewrite Hir. destruct (decide (p ∈ olds (p_sent st))) as [Hn|Hn].
        -- rewrite decide_True; [done|]. apply elem_of_app. by left.
        -- rewrite decide_False; [done|].
           intros [?|?%olds_pairs]%elem_of_app; done.
    + rewrite Hs, news_app, news_pairs. apply NoDup_app. split; [done|].
      split.
      * intros p Hp Hp'. by apply (Hfresh p).
      * apply hits_NoDup. apply (range_NoDup range range_any).
    + rewrite Hs. apply Forall_app. split; [done|].
      apply Forall_forall. intros a Ha.
      apply list_elem_of_fmap in Ha as (kv & -> & Hkv).
      destruct (Hl _ Hkv) as [Hsome Hsame]. simpl. split; [done|].
      exists kv.2. split; [|done].
      rewrite Hic in Hsome. by case_decide.
  - intros p i2 Hp. rewrite Hc in Hp.
    destruct (decide (p ∈ (hits os kv1.2 l).*1)) as [Hin|Hin]; [done|].
    split; [done|]. destruct (sameFile os kv1.2 i2) eqn:E; [|done].
    exfalso. apply Hin.
    apply (list_elem_of_fmap_2' fst _ (p, i2)); [|done].
    apply hits_elem. split; [done|].
    by apply (range_elem range range_any).
Qed.

(** The outer loop over removal candidates. *)
Lemma pair_outer_inv (R0 C0 : gmap string FileInfo)
    (l : list (string * FileInfo)) : forall k st,
  (forall kv1, kv1 ∈ l -> R0 !! kv1.1 = Some kv1.2) ->
  pairing_inv os R0 C0 st ->
  pairing_inv os R0 C0 (pair_outer os range k l st)
  /\ (forall p i2, p_creates (pair_outer os range k l st) !! p = Some i2 ->
        p_creates st !! p = Some i2
        /\ forall kv1, kv1 ∈ l -> sameFile os kv1.2 i2 = false).
Proof.
  induction l as [|kv1 l IH]; intros k st Hl Hinv.
  - simpl. split; [done|]. intros p i2 Hp. split; [done|].
    intros kv1 Hin. by apply elem_of_nil in Hin.
  - cbn [pair_outer].
    destruct (pair_inner_inv R0 C0 (2 + k) st kv1) as [Hinv1 Hpost1];
      [apply Hl; by left | done |].
    destruct (IH (S k) (pair_inner os range (2 + k) st kv1)) as [Hinv2 Hpost2];
      [intros kv Hkv; apply Hl; by right | done |].
    split; [done|]. intros p i2 Hp.
    destruct (Hpost2 _ _ Hp) as [Hp1 Hrest].
    destruct (Hpost1 _ _ Hp1) as [Hp0 Hhere].
    split; [done|]. intros kv [->|Hin]%elem_of_cons; [done | by apply Hrest].
Qed.

Lemma removes_of_lookup (old new : gmap string FileInfo) p i :
  removes_of old new !! p = Some i <-> old !! p = Some i /\ new !! p = None.
Proof. unfold removes_of. by rewrite map_lookup_filter_Some. Qed.

Lemma creates_of_lookup (old new : gmap string FileInfo) p i :
  creates_of old new !! p = Some i <-> new !! p = Some i /\ old !! p = None.
Proof. unfold creates_of. by rewrite map_lookup_filter_Some. Qed.

(** What holds when the two loops are over. *)
Lemma pairs_inv (old new : gmap string FileInfo) :
  pairing_inv os (removes_of old new) (creates_of old new) (pairs os range old new)
  /\ (forall p1 i1 p2 i2,
        removes_of old new !! p1 = Some i1 ->
        p_creates (pairs os range old new) !! p2 = Some i2 ->
        sameFile os i1 i2 = false).
Proof.
  unfold pairs.
  destruct (pair_outer_inv (removes_of old new) (creates_of old new)
              (range 1%nat (removes_of old new)) 0%nat
              (mkPairing (removes_of old new) (creates_of old new) []))
    as [Hinv Hpost].
  - intros kv1 Hkv1. by apply (range_elem range range_any) in Hkv1.
  - constructor; simpl; try done. constructor.
  - split; [done|]. intros p1 i1 p2 i2 Hp1 Hp2.
    destruct (Hpost _ _ Hp2) as [_ Hall].
    apply (Hall (p1, i1)). by apply (range_elem range range_any).
Qed.
End Pairing.

Lemma op_constants_distinct :
  Write <> Rename /\ Write <> Move /\ Chmod <> Rename /\ Chmod <> Move
  /\ Create <> Rename /\ Create <> Move /\ Remove <> Rename /\ Remove <> Move.
Proof. repeat split; discriminate. Qed.

(** C3: every Rename or Move event of a diff pairs a removal candidate with a
    creation candidate that [sameFile] accepts; its kind is Rename when
    [filepath.Dir] of the two paths agree and Move otherwise, its path is the
    old path, [" -> "] and the new path, and its metadata is that of the old
    entry.  And a creation candidate that [sameFile] pairs with some removal
    candidate always gets such an event, with that candidate or another one
    that [sameFile] accepts for it. *)
Theorem pollEvents_rename_or_move (os : OS)
    (range : nat -> gmap string FileInfo -> list (string * FileInfo))
    (w : Watcher) (fileList : gmap string FileInfo) :
  any_order range ->
  (forall e, e ∈ Watcher.pollEvents os range w fileList ->
     EvOp e = Rename \/ EvOp e = Move ->
     exists path1 info1 path2 info2,
       files w !! path1 = Some info1 /\ fileList !! path1 = None
       /\ fileList !! path2 = Some info2 /\ files w !! path2 = None
       /\ sameFile os info1 info2 = true
       /\ e = mkEvent (if decide (Dir os path1 = Dir os path2) then Rename else Move)
                      (path1 +:+ " -> " +:+ path2) info1)
  /\ (forall path1 info1 path2 info2,
        files w !! path1 = Some info1 -> fileList !! path1 = None ->
        fileList !! path2 = Some info2 -> files w !! path2 = None ->
        sameFile os info1 info2 = true ->
        exists path1' info1',
          files w !! path1' = Some info1' /\ fileList !! path1' = None
          /\ sameFile os info1' info2 = true
          /\ mkEvent (if decide (Dir os path1' = Dir os path2) then Rename else Move)
                     (path1' +:+ " -> " +:+ path2) info1'
             ∈ Watcher.pollEvents os range w fileList).
Proof.
  intros Hrange.
  destruct (pairs_inv os range Hrange (files w) fileList) as [[Hic Hir Hnd Hsent] Hpost].
  destruct op_constants_distinct as (D1 & D2 & D3 & D4 & D5 & D6 & D7 & D8).
  split.
  - intros e He Hop. unfold Watcher.pollEvents in He.
    apply list_elem_of_fmap in He as (a & -> & Ha). unfold pollActions in Ha.
    apply elem_of_app in Ha as [Ha|Ha].
    { pose proof (changes_ops os range (files w) fileList) as Hch.
      rewrite Forall_forall in Hch. specialize (Hch _ Ha).
      destruct Hch as [Hch|Hch], Hop as [Hop|Hop]; congruence. }
    apply elem_of_app in Ha as [Ha|Ha].
    { rewrite Forall_forall in Hsent. specialize (Hsent _ Ha).
      destruct a as [| |path1 info1 path2| |]; try done.
      destruct Hsent as (H1 & info2 & H2 & Hsame).
      apply removes_of_lookup in H1 as [H1 H1'].
      apply creates_of_lookup in H2 as [H2 H2'].
      exists path1, info1, path2, info2. done. }
    apply elem_of_app in Ha as [Ha|Ha].
    { apply list_elem_of_fmap in Ha as (kv & -> & _). simpl in Hop.
      destruct Hop; congruence. }
    apply list_elem_of_fmap in Ha as (kv & -> & _). simpl in Hop.
    destruct Hop; congruence.
  - intros path1 info1 path2 info2 H1 H1' H2 H2' Hsame.
    assert (path2 ∈ news (p_sent (pairs os range (files w) fileList))) as Hin.
    { destruct (decide (path2 ∈ news (p_sent (pairs os range (files w) fileList))))
        as [Hin|Hin]; [done|]. exfalso.
      specialize (Hic path2). rewrite decide_False in Hic by done.
      assert (creates_of (files w) fileList !! path2 = Some info2) as HC
        by (by apply creates_of_lookup).
      rewrite HC in Hic.
      assert (removes_of (files w) fileList !! path1 = Some info1) as HR
        by (by apply removes_of_lookup).
      specialize (Hpost _ _ _ _ HR Hic). congruence. }
    unfold news in Hin. apply list_elem_of_omap in Hin as (a & Ha & Hnew).
    rewrite Forall_forall in Hsent. pose proof (Hsent _ Ha) as Hm.
    destruct a as [| |path1' info1' path2'| |]; try done.
    inversion Hnew; subst path2'.
    destruct Hm as (HR & info2' & HC & Hsame').
    apply removes_of_lookup in HR as [HR HR'].
    apply creates_of_lookup in HC as [HC HC'].
    rewrite H2 in HC. inversion HC; subst info2'.
    exists path1', info1'. repeat split; try done.
    unfold Watcher.pollEvents.
    apply (list_elem_of_fmap_2' _ _ (APair path1' info1' path2)); [|done].
    unfold pollActions. apply elem_of_app. right. apply elem_of_app. by left.
Qed.

Lemma pollEvents_rename_or_move_witness :
  (forall e, e ∈ Watcher.pollEvents unix range_fixed (set_files New old_x) new_y ->
     EvOp e = Rename \/ EvOp e = Move ->
     exists path1 info1 path2 info2,
       files (set_files New old_x) !! path1 = Some info1 /\ new_y !! path1 = None
       /\ new_y !! path2 = Some info2 /\ files (set_files New old_x) !! path2 = None
       /\ sameFile unix info1 info2 = true
       /\ e = mkEvent (if decide (Dir unix path1 = Dir unix path2) then Rename else Move)
                      (path1 +:+ " -> " +:+ path2) info1)
  /\ (forall path1 info1 path2 info2,
        files (set_files New old_x) !! path1 = Some info1 -> new_y !! path1 = None ->
        new_y !! path2 = Some info2 -> files (set_files New old_x) !! path2 = None ->
        sameFile unix info1 info2 = true ->
        exists path1' info1',
          files (set_files New old_x) !! path1' = Some info1' /\ new_y !! path1' = None
          /\ sameFile unix info1' info2 = true
          /\ mkEvent (if decide (Dir unix path1' = Dir unix path2) then Rename else Move)
                     (path1' +:+ " -> " +:+ path2) info1'
             ∈ Watcher.pollEvents unix range_fixed (set_files New old_x) new_y).
Proof.
  apply (pollEvents_rename_or_move unix range_fixed (set_files New old_x) new_y).
  apply range_fixed_any_order.
Defined.

(** The two cases of the classification: [/a/x] to [/a/y] is a Rename,
    [/a/x] to [/b/x] is a Move; no Create and no Remove is sent. *)
Example rename_in_place :
  Watcher.pollEvents unix range_fixed (set_files New old_x) new_y
  = [mkEvent Rename "/a/x -> /a/y" (file "x")].
Proof. reflexivity. Qed.

Example move_elsewhere :
  Watcher.pollEvents unix range_fixed (set_files New old_x) new_bx
  = [mkEvent Move "/a/x -> /b/x" (file "x")].
Proof. reflexivity. Qed.

(** ** A removal candidate paired twice *)

Lemma filter_all {A : Type} (P : A -> Prop) `{!forall x, Decision (P x)} (l : list A) :
  Forall P l -> filter P l = l.
Proof.
  induction 1 as [|x l Hx Hl IH]; [done|].
  rewrite filter_cons_True by done. by f_equal.
Qed.

(** C1, where the code departs from it: a snapshot of one path [path1] and a
    listing of two other paths whose metadata [sameFile] both pairs with that
    of [path1].  In whatever order the maps are visited, the diff sends two
    Rename or Move events and nothing else, and both consume [path1]: this
    removal candidate has two terminal events and not one.  The inner loop
    has no [break] after a match. *)
Theorem pollEvents_pairs_twice (os : OS)
    (range : nat -> gmap string FileInfo -> list (string * FileInfo))
    (path1 path2 path3 : string) (info1 info2 info3 : FileInfo) :
  any_order range ->
  path1 <> path2 -> path1 <> path3 -> path2 <> path3 ->
  sameFile os info1 info2 = true -> sameFile os info1 info3 = true ->
  Watcher.pollEvents os range (set_files New {[ path1 := info1 ]})
                     (<[ path2 := info2 ]> {[ path3 := info3 ]})
  ≡ₚ [ mkEvent (if decide (Dir os path1 = Dir os path2) then Rename else Move)
               (arrow path1 path2) info1;
       mkEvent (if decide (Dir os path1 = Dir os path3) then Rename else Move)
               (arrow path1 path3) info1 ]
  /\ length (filter (consumes_old path1)
               (pollActions os range {[ path1 := info1 ]}
                            (<[ path2 := info2 ]> {[ path3 := info3 ]})))
     = 2%nat.
Proof.
  intros Hrange H12 H13 H23 Hs2 Hs3.
  set (old := ({[ path1 := info1 ]} : gmap string FileInfo)).
  set (new := (<[ path2 := info2 ]> {[ path3 := info3 ]} : gmap string FileInfo)).
  assert (forall p i, new !! p = Some i ->
            (p = path2 /\ i = info2) \/ (p = path3 /\ i = info3)) as Hnew.
  { intros p i [[<- <-]|[_ H]]%lookup_insert_Some; [by left|].
    apply lookup_singleton_Some in H as [<- <-]. by right. }
  assert (new !! path1 = None) as Hnew1.
  { unfold new. rewrite lookup_insert_ne by congruence.
    apply lookup_singleton_ne. congruence. }
  assert (forall p i, new !! p = Some i ->
            old !! p = None /\ sameFile os info1 i = true) as Hcand.
  { intros p i [[-> ->]|[-> ->]]%Hnew;
      (split; [apply lookup_singleton_ne; congruence | done]). }
  assert (removes_of old new = old) as HR.
  { unfold removes_of, old. by apply map_filter_singleton_True. }
  assert (creates_of old new = new) as HC.
  { unfold creates_of. apply map_filter_id. intros p i Hp. simpl.
    by destruct (Hcand _ _ Hp). }
  assert (map_to_list new ≡ₚ [(path2, info2); (path3, info3)]) as Hlist.
  { unfold new. rewrite map_to_list_insert by (apply lookup_singleton_ne; congruence).
    by rewrite map_to_list_singleton. }
  assert (range 1%nat old = [(path1, info1)]) as H1.
  { apply Permutation_singleton_r. rewrite (Hrange 1%nat old).
    unfold old. by rewrite map_to_list_singleton. }
  assert (forall n kv, kv ∈ range n new ->
            old !! kv.1 = None /\ sameFile os info1 kv.2 = true) as Hkv.
  { intros n kv Hin. apply (range_elem range Hrange) in Hin. by apply Hcand. }
  assert (changes range old new = []) as Hch.
  { unfold changes.
    assert (forall kv, kv ∈ range 0%nat new -> changes_at old kv = []) as Hall.
    { intros kv Hin. unfold changes_at. by destruct (Hkv _ _ Hin) as [-> _]. }
    induction (range 0%nat new) as [|kv l IH]; [reflexivity|].
    simpl. rewrite Hall by (by left). apply IH. intros kv' Hin. apply Hall. by right. }
  assert (hits os info1 (range 2%nat new) = range 2%nat new) as Hhits.
  { apply filter_all. apply Forall_forall. intros kv Hin.
    by destruct (Hkv _ _ Hin). }
  assert (range 2%nat new <> []) as Hne.
  { intros Hnil. pose proof (Hrange 2%nat new) as Hp.
    rewrite Hnil, Hlist in Hp. by apply Permutation_nil_cons in Hp. }
  assert (pollActions os range old new
          = map (fun kv => APair path1 info1 kv.1) (range 2%nat new)) as Hact.
  { unfold pollActions, pairs. rewrite HR, HC, H1, Hch. cbn [pair_outer length].
    unfold pair_inner. cbn [p_creates fst snd Nat.add].
    destruct (pair_fold_spec os path1 info1 (range 2%nat new)
                (mkPairing old new [])) as (Hs & Hc & Hr).
    rewrite Hhits in Hs, Hc, Hr. cbn [p_sent p_creates p_removes] in Hs, Hc, Hr.
    rewrite Hs.
    set (st := fold_left (pair_step os path1 info1) (range 2%nat new)
                 (mkPairing old new [])) in *.
    assert (p_creates st = ∅) as ->.
    { apply map_empty. intros p. rewrite Hc.
      destruct (decide (p ∈ (range 2%nat new).*1)) as [Hin|Hin]; [reflexivity|].
      destruct (new !! p) as [i|] eqn:E; [|reflexivity].
      exfalso. apply Hin.
      apply (list_elem_of_fmap_2' fst _ (p, i)); [|reflexivity].
      apply (range_elem range Hrange). exact E. }
    assert (p_removes st = ∅) as ->.
    { apply map_empty. intros p. rewrite Hr.
      destruct (decide (range 2%nat new <> [] /\ p = path1)) as [Hin|Hin];
        [reflexivity|].
      destruct (decide (p = path1)) as [->|Hp]; [exfalso; apply Hin; by split|].
      unfold old. apply lookup_singleton_ne. congruence. }
    rewrite !(range_empty range Hrange). simpl. by rewrite app_nil_r. }
  assert (range 2%nat new ≡ₚ [(path2, info2); (path3, info3)]) as Hperm
    by (by rewrite (Hrange 2%nat new), Hlist).
  split.
  - unfold Watcher.pollEvents. cbn [files set_files]. fold old. rewrite Hact.
    rewrite map_map.
    apply (Permutation_map (fun kv : string * FileInfo =>
             event_of os (APair path1 info1 kv.1))) in Hperm.
    exact Hperm.
  - rewrite Hact.
    apply (Permutation_map (fun kv : string * FileInfo =>
             APair path1 info1 kv.1)) in Hperm.
    rewrite Hperm. simpl. rewrite !filter_cons_True by done. reflexivity.
Qed.

Lemma pollEvents_pairs_twice_witness :
  Watcher.pollEvents unix range_fixed (set_files New {[ "/a/x" := file "x" ]})
                     (<[ "/a/y" := file "y" ]> {[ "/a/z" := file "z" ]})
  ≡ₚ [ mkEvent (if decide (Dir unix "/a/x" = Dir unix "/a/y") then Rename else Move)
               (arrow "/a/x" "/a/y") (file "x");
       mkEvent (if decide (Dir unix "/a/x" = Dir unix "/a/z") then Rename else Move)
               (arrow "/a/x" "/a/z") (file "x") ]
  /\ length (filter (consumes_old "/a/x")
               (pollActions unix range_fixed {[ "/a/x" := file "x" ]}
                            (<[ "/a/y" := file "y" ]> {[ "/a/z" := file "z" ]})))
     = 2%nat.
Proof.
  apply (pollEvents_pairs_twice unix range_fixed "/a/x" "/a/y" "/a/z"
           (file "x") (file "y") (file "z"));
    [apply range_fixed_any_order | discriminate | discriminate | discriminate
    | reflexivity | reflexivity].
Defined.

(** The same diff, evaluated: one path gone, two Rename events for it. *)
Example one_gone_two_renames :
  Watcher.pollEvents unix range_fixed (set_files New old_x) new_yz
  = [ mkEvent Rename "/a/x -> /a/y" (file "x");
      mkEvent Rename "/a/x -> /a/z" (file "x") ].
Proof. reflexivity. Qed.

(** ** How often a candidate is consumed *)

Lemma count_NoDup (p : string) (l : list string) :
  NoDup l -> length (filter (fun x => x = p) l) = if decide (p ∈ l) then 1%nat else 0%nat.
Proof.
  induction 1 as [|x l Hx Hl IH]; [done|].
  destruct (decide (x = p)) as [->|Hne].
  - rewrite filter_cons_True by done. simpl. rewrite IH.
    rewrite decide_False by done. rewrite decide_True; [done | by left].
  - rewrite filter_cons_False by done. rewrite IH.
    destruct (decide (p ∈ l)) as [Hin|Hin].
    + rewrite decide_True; [done | by right].
    + rewrite decide_False; [done|]. intros [?|?]%elem_of_cons; done.
Qed.

Lemma count_keys (p : string) (l : list (string * FileInfo)) :
  length (filter (fun kv : string * FileInfo => kv.1 = p) l)
  = length (filter (fun x => x = p) l.*1).
Proof.
  induction l as [|kv l IH]; [done|]. simpl.
  destruct (decide (kv.1 = p)) as [He|Hne].
  - rewrite !filter_cons_True by done. simpl. by rewrite IH.
  - rewrite !filter_cons_False by done. done.
Qed.

Lemma count_none {A : Type} (P : A -> Prop) `{!forall x, Decision (P x)} (l : list A) :
  Forall (fun x => ~ P x) l -> length (filter P l) = 0%nat.
Proof.
  induction 1 as [|x l Hx Hl IH]; [done|]. by rewrite filter_cons_False.
Qed.

Section Counting.
Context (os : OS).
Variable range : nat -> gmap string FileInfo -> list (string * FileInfo).
Hypothesis range_any : any_order range.

Lemma count_range (n : nat) (m : gmap string FileInfo) (p : string) :
  length (filter (fun kv : string * FileInfo => kv.1 = p) (range n m))
  = if m !! p is Some _ then 1%nat else 0%nat.
Proof.
  rewrite count_keys, (count_NoDup _ _ (range_NoDup range range_any n m)).
  destruct (m !! p) as [i|] eqn:E.
  - rewrite decide_True; [done|].
    apply (list_elem_of_fmap_2' fst _ (p, i)); [|done].
    by apply (range_elem range range_any).
  - rewrite decide_False; [done|].
    intros (kv & -> & Hin)%list_elem_of_fmap.
    apply (range_elem range range_any) in Hin. congruence.
Qed.

Lemma count_new_sent (p : string) (sent : list action) :
  Forall is_pair sent ->
  length (filter (consumes_new p) sent)
  = length (filter (fun x => x = p) (news sent)).
Proof.
  induction 1 as [|a sent Ha Hs IH]; [done|].
  destruct a as [| |path1 info1 path2| |]; try done.
  unfold news in *. simpl. destruct (decide (path2 = p)) as [He|Hne].
  - rewrite !filter_cons_True by done. simpl. by rewrite IH.
  - rewrite !filter_cons_False by done. done.
Qed.

Lemma count_old_sent (p : string) (sent : list action) :
  Forall is_pair sent ->
  p ∈ olds sent -> (1 <= length (filter (consumes_old p) sent))%nat.
Proof.
  induction 1 as [|a sent Ha Hs IH]; [by intros ?%elem_of_nil|].
  destruct a as [| |path1 info1 path2| |]; try done.
  unfold olds in *. simpl. destruct (decide (path1 = p)) as [He|Hne].
  - intros _. rewrite filter_cons_True by done. simpl. lia.
  - intros [?|Hin]%elem_of_cons; [done|].
    rewrite filter_cons_False by done. by apply IH.
Qed.

Lemma count_changes (P : action -> Prop) `{!forall a, Decision (P a)}
    (old new : gmap string FileInfo) :
  (forall path info, ~ P (AWrite path info)) ->
  (forall path info, ~ P (AChmod path info)) ->
  length (filter P (changes range old new)) = 0%nat.
Proof.
  intros HW HC. apply count_none. unfold changes.
  induction (range 0%nat new) as [|kv l IH]; [constructor|].
  simpl. apply Forall_app. split; [|exact IH].
  unfold changes_at. destruct (old !! kv.1) as [oldInfo|]; [|constructor].
  apply Forall_app. split.
  - destruct (decide (ModTime oldInfo <> ModTime kv.2));
      [apply Forall_singleton, HW | constructor].
  - destruct (decide (Mode oldInfo <> Mode kv.2));
      [apply Forall_singleton, HC | constructor].
Qed.

(** A creation candidate has exactly one terminal event. *)
Lemma pollActions_new_once (old new : gmap string FileInfo) (p : string) :
  is_Some (creates_of old new !! p) ->
  length (filter (consumes_new p) (pollActions os range old new)) = 1%nat.
Proof.
  intros [i Hi].
  destruct (pairs_inv os range range_any old new) as [[Hic Hir Hnd Hsent] _].
  unfold pollActions. rewrite !filter_app, !length_app.
  rewrite count_changes by (intros ? ?; simpl; tauto).
  rewrite count_new_sent
    by (eapply Forall_impl; [exact Hsent|]; by intros [| | | |]).
  rewrite (count_NoDup _ _ Hnd).
  assert (forall l : list (string * FileInfo),
            length (filter (consumes_new p) (map (fun kv => ACreate kv.1 kv.2) l))
            = length (filter (fun kv : string * FileInfo => kv.1 = p) l)) as Hcr.
  { induction l as [|kv l IH]; [done|]. simpl.
    destruct (decide (kv.1 = p)) as [He|Hne].
    - rewrite !filter_cons_True by done. simpl. by rewrite IH.
    - rewrite !filter_cons_False by done. done. }
  rewrite Hcr, count_range, Hic.
  rewrite (count_none (consumes_new p)).
  - destruct (decide (p ∈ news (p_sent (pairs os range old new)))); [done|].
    by rewrite Hi.
  - apply Forall_forall. intros a (kv & -> & _)%list_elem_of_fmap. simpl. tauto.
Qed.

(** A removal candidate has at least one terminal event. *)
Lemma pollActions_old_consumed (old new : gmap string FileInfo) (p : string) :
  is_Some (removes_of old new !! p) ->
  (1 <= length (filter (consumes_old p) (pollActions os range old new)))%nat.
Proof.
  intros [i Hi].
  destruct (pairs_inv os range range_any old new) as [[Hic Hir Hnd Hsent] _].
  unfold pollActions. rewrite !filter_app, !length_app.
  assert (Forall is_pair (p_sent (pairs os range old new))) as Hpairs
    by (eapply Forall_impl; [exact Hsent|]; by intros [| | | |]).
  destruct (decide (p ∈ olds (p_sent (pairs os range old new)))) as [Hin|Hin].
  - pose proof (count_old_sent p _ Hpairs Hin). lia.
  - assert (forall l : list (string * FileInfo),
              length (filter (consumes_old p) (map (fun kv => ARemove kv.1 kv.2) l))
              = length (filter (fun kv : string * FileInfo => kv.1 = p) l)) as Hrm.
    { induction l as [|kv l IH]; [done|]. simpl.
      destruct (decide (kv.1 = p)) as [He|Hne].
      - rewrite !filter_cons_True by done. simpl. by rewrite IH.
      - rewrite !filter_cons_False by done. done. }
    rewrite Hrm, count_range, Hir. rewrite decide_False by done. rewrite Hi. lia.
Qed.
End Counting.

(** ** Listing and the ignore set *)

Section WalkInvariant.
Context (os : OS) {S : Type}.
Variable walkFn : string -> walkarg -> S -> S * option walkerr.
Variable P : S -> Prop.
Hypothesis walkFn_keeps : forall path a st, P st -> P (walkFn path a st).1.

Lemma walk_names_keeps
    (rec : string -> FileInfo -> S -> option (S * option walkerr)) :
  (forall path info st r, P st -> rec path info st = Some r -> P r.1) ->
  forall names path st r,
    P st -> walk_names os walkFn rec path names st = Some r -> P r.1.
Proof.
  intros Hrec names. induction names as [|name rest IH]; intros path st r Hst Hrun.
  - simpl in Hrun. by inversion Hrun.
  - cbn [walk_names] in Hrun.
    destruct (Lstat os (Join os path name)) as [fileInfo|e].
    + destruct (rec (Join os path name) fileInfo st) as [[st' o]|] eqn:Hr; [|done].
      pose proof (Hrec _ _ _ _ Hst Hr) as Hst'. simpl in Hst'.
      destruct o as [[|e']|].
      * destruct (IsDir fileInfo); [by eapply IH|]. by inversion Hrun.
      * by inversion Hrun.
      * by eapply IH.
    + pose proof (walkFn_keeps (Join os path name) (Unreadable e) st Hst) as Hst'.
      destruct (walkFn (Join os path name) (Unreadable e) st) as [st' o].
      simpl in Hst'. destruct o as [[|e']|].
      * by eapply IH.
      * by inversion Hrun.
      * by eapply IH.
Qed.

Lemma walk_keeps (fuel : nat) : forall path info st r,
  P st -> walk os walkFn fuel path info st = Some r -> P r.1.
Proof.
  induction fuel as [|fuel IH]; intros path info st r Hst Hrun; [done|].
  cbn [walk] in Hrun. destruct (negb (IsDir info)).
  - inversion Hrun. by apply walkFn_keeps.
  - match type of Hrun with
    | context [walkFn path ?a st] =>
        pose proof (walkFn_keeps path a st Hst) as Hst';
        destruct (walkFn path a st) as [st1 err1]
    end.
    simpl in Hst'. destruct err1 as [err1|].
    + by inversion Hrun.
    + destruct (readDirNames os path) as [l|e]; [|by inversion Hrun].
      eapply walk_names_keeps; [exact IH | exact Hst' | exact Hrun].
Qed.

Lemma Walk_keeps (fuel : nat) (root : string) (st : S) (r : S * option error) :
  P st -> Walk os walkFn fuel root st = Some r -> P r.1.
Proof.
  intros Hst. unfold Walk.
  destruct (Lstat os root) as [info|e].
  - destruct (walk os walkFn fuel root info st) as [[st' o]|] eqn:Hw; [|done].
    pose proof (walk_keeps _ _ _ _ _ Hst Hw) as Hst'.
    destruct o as [[|e']|]; intros [= <-]; done.
  - pose proof (walkFn_keeps root (Unreadable e) st Hst) as Hst'.
    destruct (walkFn root (Unreadable e) st) as [st' o].
    destruct o as [[|e']|]; intros [= <-]; done.
Qed.
End WalkInvariant.

Section Listing.
Context (os : OS).

Lemma skipped_ignored (w : Watcher) (q name : string) :
  q ∈ ignored w -> Watcher.skipped w q name = true.
Proof. intros Hq. unfold Watcher.skipped. by rewrite bool_decide_eq_true_2. Qed.

Lemma listRecursive_fn_keeps (w : Watcher) (q path : string) (a : walkarg)
    (fileList : gmap string FileInfo) :
  q ∈ ignored w ->
  fileList !! q = None ->
  (Watcher.listRecursive_fn w path a fileList).1 !! q = None.
Proof.
  intros Hq Hnone. unfold Watcher.listRecursive_fn.
  destruct a as [info [e|]|e]; [done| |done].
  destruct (Watcher.skipped w path (Name info)) eqn:Hs; [done|]. simpl.
  rewrite lookup_insert_ne; [done|]. intros ->.
  by rewrite skipped_ignored in Hs.
Qed.

(** A recursive listing never holds an ignored path. *)
Lemma listRecursive_no_ignored (fuel : nat) (w : Watcher) (q r : string)
    (m : gmap string FileInfo) (e : option error) :
  q ∈ ignored w ->
  Watcher.listRecursive os fuel w r = Some (m, e) -> m !! q = None.
Proof.
  intros Hq Hrun. unfold Watcher.listRecursive in Hrun.
  apply (Walk_keeps os (Watcher.listRecursive_fn w)
           (fun fl : gmap string FileInfo => fl !! q = None)) in Hrun; [done| |done].
  intros path a st. by apply listRecursive_fn_keeps.
Qed.

(** A walk that starts at an ignored path adds nothing: the subtree below
    it is not entered. *)
Lemma walk_ignored_adds_nothing (fuel : nat) (w : Watcher) (q : string)
    (info : FileInfo) (st st' : gmap string FileInfo) (r : option walkerr) :
  q ∈ ignored w ->
  walk os (Watcher.listRecursive_fn w) fuel q info st = Some (st', r) ->
  st' = st.
Proof.
  intros Hq. destruct fuel as [|fuel]; [done|]. cbn [walk].
  unfold Watcher.listRecursive_fn. rewrite (skipped_ignored w q _ Hq).
  destruct (IsDir info); simpl.
  - destruct (readDirNames os q) as [l|e]; by intros [= <- _].
  - by intros [= <- _].
Qed.

Lemma list_child_keeps (w : Watcher) (q name : string)
    (fileList : gmap string FileInfo) (fInfo : FileInfo) :
  q ∈ ignored w ->
  fileList !! q = None ->
  Watcher.list_child os w name fileList fInfo !! q = None.
Proof.
  intros Hq Hnone. unfold Watcher.list_child.
  destruct (Watcher.skipped w (Join os name (Name fInfo)) (Name fInfo)) eqn:Hs; [done|].
  rewrite lookup_insert_ne; [done|]. intros Heq.
  rewrite Heq, skipped_ignored in Hs; done.
Qed.

(** A listing of one level holds an ignored path only as its own root. *)
Lemma list_no_ignored (w : Watcher) (q r : string) (m : gmap string FileInfo) :
  q ∈ ignored w -> r <> q ->
  Watcher.list os w r = Ok m -> m !! q = None.
Proof.
  intros Hq Hne. unfold Watcher.list.
  destruct (Stat os r) as [stat|e]; [|done].
  assert (({[ r := stat ]} : gmap string FileInfo) !! q = None) as Hbase
    by (by apply lookup_singleton_ne).
  destruct (negb (IsDir stat)); [by intros [= <-]|].
  destruct (ReadDir os r) as [fInfoList|e]; [|done]. intros [= <-].
  revert Hbase. generalize ({[ r := stat ]} : gmap string FileInfo).
  induction fInfoList as [|fInfo l IH]; intros fl Hfl; [done|].
  simpl. apply IH. by apply list_child_keeps.
Qed.

Lemma lookup_union_None_2 (m1 m2 : gmap string FileInfo) (q : string) :
  m1 !! q = None -> m2 !! q = None -> (m1 ∪ m2) !! q = None.
Proof. intros H1 H2. by apply lookup_union_None. Qed.

Lemma retrieve_step_no_ignored (fuel : nat) (q : string) (w w' : Watcher)
    (fl fl' : gmap string FileInfo) (errs errs' : list error) (nr : string * bool) :
  q ∈ ignored w -> fl !! q = None -> (nr.2 = false -> nr.1 <> q) ->
  Watcher.retrieve_step os fuel (Some (w, fl, errs)) nr = Some (w', fl', errs') ->
  fl' !! q = None.
Proof.
  intros Hq Hfl Hroot. unfold Watcher.retrieve_step. destruct (nr.2).
  - destruct (Watcher.listRecursive os fuel w nr.1) as [[l o]|] eqn:Hl; [|done].
    pose proof (listRecursive_no_ignored _ _ _ _ _ _ Hq Hl) as Hlq.
    destruct o as [e|]; [destruct (IsNotExist e)|]; intros [= _ <- _];
      by apply lookup_union_None_2.
  - destruct (Watcher.list os w nr.1) as [l|e] eqn:Hl.
    + intros [= _ <- _]. apply lookup_union_None_2; [|done].
      eapply list_no_ignored; [exact Hq | by apply Hroot | exact Hl].
    + destruct (IsNotExist e); by intros [= _ <- _].
Qed.

Lemma retrieve_fold_no_ignored (fuel : nat) (q : string)
    (l : list (string * bool)) : forall w fl errs w' fl' errs',
  q ∈ ignored w -> fl !! q = None ->
  (forall nr, nr ∈ l -> nr.2 = false -> nr.1 <> q) ->
  fold_left (Watcher.retrieve_step os fuel) l (Some (w, fl, errs))
  = Some (w', fl', errs') ->
  fl' !! q = None.
Proof.
  induction l as [|nr l IH]; intros w fl errs w' fl' errs' Hq Hfl Hl Hrun.
  - simpl in Hrun. by inversion Hrun; subst.
  - cbn [fold_left] in Hrun.
    destruct (Watcher.retrieve_step os fuel (Some (w, fl, errs)) nr)
      as [[[w1 fl1] errs1]|] eqn:Hstep.
    + eapply (IH w1 fl1 errs1); [| | |exact Hrun].
      * apply retrieve_step_same_config in Hstep as (_ & _ & Hi & _).
        by rewrite Hi.
      * eapply retrieve_step_no_ignored; [exact Hq | exact Hfl | | exact Hstep].
        apply Hl. by left.
      * intros nr' Hin. apply Hl. by right.
    + by rewrite retrieve_fold_None in Hrun.
Qed.
End Listing.

(** C7, as the code has it: after [Ignore] of a path that resolves to [q],
    [q] is in the ignore set and is neither a root nor a snapshot key, and
    the other roots stay; the snapshot is what [RemoveRecursive] leaves: when
    [q] was tracked as a directory every entry whose path has [q] as a string
    prefix is gone.  From then on a recursive listing never holds [q] and
    does not go below it, a listing of one level holds [q] only as its own
    root, and a listing pass over the registered roots does not hold [q]. *)
Theorem Ignore_purges_and_hides (os : OS) (w : Watcher) (p q : string) :
  Abs os p = Ok q -> Abs os q = Ok q ->
  exists w',
    Watcher.Ignore os w [p] = (w', None)
    /\ q ∈ ignored w'
    /\ names w' = delete q (names w)
    /\ files w' = purged w q
    /\ files w' !! q = None
    /\ (forall info, files w !! q = Some info -> IsDir info = true ->
          forall k, HasPrefix k q = true -> files w' !! k = None)
    /\ (forall fuel r m e,
          Watcher.listRecursive os fuel w' r = Some (m, e) -> m !! q = None)
    /\ (forall fuel info st st' r,
          walk os (Watcher.listRecursive_fn w') fuel q info st = Some (st', r) ->
          st' = st)
    /\ (forall r m, r <> q -> Watcher.list os w' r = Ok m -> m !! q = None)
    /\ (forall fuel rn w'' fl errs,
          (forall nr, nr ∈ rn (names w') -> names w' !! nr.1 = Some nr.2) ->
          Watcher.retrieveFileList os fuel rn w' = Some (w'', fl, errs) ->
          fl !! q = None).
Proof.
  intros Hp Hq. exists (ignore_one w q).
  assert (q ∈ ignored (ignore_one w q)) as Hin
    by (simpl; apply elem_of_union; left; by apply elem_of_singleton).
  split; [by rewrite (Ignore_cons_ok os w p q [] Hp Hq)|].
  split; [done|]. split; [done|]. split; [done|].
  split; [apply purged_self|]. split; [|split; [|split; [|split]]].
  - intros info Hinfo Hdir k Hk. simpl. unfold purged. rewrite Hinfo, Hdir.
    apply map_lookup_filter_None. right. intros x _. simpl. by rewrite Hk.
  - intros fuel r m e. by apply listRecursive_no_ignored.
  - intros fuel info st st' r. by apply walk_ignored_adds_nothing.
  - intros r m Hne. by apply list_no_ignored.
  - intros fuel rn w'' fl errs Hrn Hrun.
    eapply (retrieve_fold_no_ignored os fuel q); [exact Hin | | | exact Hrun].
    + apply lookup_empty.
    + intros nr Hnr _ Heq. specialize (Hrn nr Hnr). rewrite Heq in Hrn.
      simpl in Hrn. by rewrite lookup_delete_eq in Hrn.
Qed.

Lemma Ignore_purges_and_hides_witness :
  exists w',
    Watcher.Ignore unix watching_a ["/a/b"] = (w', None)
    /\ "/a/b" ∈ ignored w'
    /\ names w' = delete "/a/b" (names watching_a)
    /\ files w' = purged watching_a "/a/b"
    /\ files w' !! "/a/b" = None
    /\ (forall info, files watching_a !! "/a/b" = Some info -> IsDir info = true ->
          forall k, HasPrefix k "/a/b" = true -> files w' !! k = None)
    /\ (forall fuel r m e,
          Watcher.listRecursive unix fuel w' r = Some (m, e) -> m !! "/a/b" = None)
    /\ (forall fuel info st st' r,
          walk unix (Watcher.listRecursive_fn w') fuel "/a/b" info st = Some (st', r) ->
          st' = st)
    /\ (forall r m, r <> "/a/b" -> Watcher.list unix w' r = Ok m -> m !! "/a/b" = None)
    /\ (forall fuel rn w'' fl errs,
          (forall nr, nr ∈ rn (names w') -> names w' !! nr.1 = Some nr.2) ->
          Watcher.retrieveFileList unix fuel rn w' = Some (w'', fl, errs) ->
          fl !! "/a/b" = None).
Proof.
  apply (Ignore_purges_and_hides unix watching_a "/a/b" "/a/b"); reflexivity.
Defined.

(** The sentence on [Ignore] fails with string prefixes.  [/a/b/c] watched on
    its own stays a root and a snapshot entry when [/a/b] is ignored; and
    after [/a] was added recursively and [/a/b] ignored, the next listing
    pass lists [/a/bc] again. *)
Lemma Ignore_prefix_counterexample :
  ~ purges_prefix unix watching_c "/a/b"
  /\ ~ never_relists_prefix unix 5 names_fixed watching_a "/a/b".
Proof.
  split.
  - intros H. destruct (H "/a/b" "/a/b/c") as [Hf _]; [reflexivity | reflexivity |].
    vm_compute in Hf. discriminate.
  - intros H.
    assert (match Watcher.retrieveFileList unix 5 names_fixed
                    (Watcher.Ignore unix watching_a ["/a/b"]).1 with
            | Some (_, fl, _) => fl !! "/a/bc"
            | None => None
            end = Some (file "bc")) as Hfl by (vm_compute; reflexivity).
    destruct (Watcher.retrieveFileList unix 5 names_fixed
                (Watcher.Ignore unix watching_a ["/a/b"]).1)
      as [[[w' fl] errs]|] eqn:Hrun; [|discriminate].
    rewrite (H "/a/b" "/a/bc" w' fl errs eq_refl eq_refl Hrun) in Hfl.
    discriminate.
Qed.

(** ** [Add] and [AddRecursive] on a path that is skipped *)

(** [Add] returns before it lists or registers an ignored path. *)
Lemma Add_ignored_noop (os : OS) (w : Watcher) (name p : string) :
  Abs os name = Ok p -> p ∈ ignored w -> Watcher.Add os w name = (w, None).
Proof.
  intros Hp Hin. unfold Watcher.Add. rewrite Hp.
  by rewrite (skipped_ignored w p p Hin).
Qed.

(** [AddRecursive] has no such test: the walk skips the path, and the path
    is registered as a recursive root all the same. *)
Lemma AddRecursive_ignored_registers (os : OS) (fuel : nat) (w : Watcher)
    (name p : string) (info : FileInfo) :
  Abs os name = Ok p -> p ∈ ignored w -> Lstat os p = Ok info ->
  IsDir info = false \/ (exists l, readDirNames os p = Ok l) ->
  Watcher.AddRecursive os (S fuel) w name
  = Some (set_names (set_files w (∅ ∪ files w)) (<[p := true]> (names w)), None).
Proof.
  intros Hp Hin Hstat Hread. unfold Watcher.AddRecursive. rewrite Hp.
  unfold Watcher.listRecursive, Walk. rewrite Hstat. cbn [walk].
  unfold Watcher.listRecursive_fn. rewrite (skipped_ignored w p _ Hin).
  destruct (IsDir info) eqn:Hdir; simpl.
  - destruct Hread as [?|[l Hl]]; [done|]. by rewrite Hl.
  - done.
Qed.

(** C8, where the code departs from it.  With [/a] ignored,
    [AddRecursive("/a")] returns no error and adds no entry, but registers
    [/a] as a recursive root; with hidden files suppressed, [Add("/a/.git")]
    tests the absolute path for a leading dot, finds none, and tracks and
    registers the hidden directory. *)
Theorem Add_skipped_not_noop :
  ("/a" ∈ ignored ignoring_a
   /\ names ignoring_a !! "/a" = None
   /\ exists w',
        Watcher.AddRecursive unix 5 ignoring_a "/a" = Some (w', None)
        /\ files w' = files ignoring_a
        /\ names w' !! "/a" = Some true)
  /\ (ignoreHidden hiding = true
      /\ HasPrefix (Name (dir ".git")) "." = true
      /\ exists w',
           Watcher.Add unix hiding "/a/.git" = (w', None)
           /\ files w' !! "/a/.git" = Some (dir ".git")
           /\ names w' !! "/a/.git" = Some false).
Proof.
  assert ("/a" ∈ ignored ignoring_a) as Hin.
  { apply (bool_decide_eq_true ("/a" ∈ ignored ignoring_a)). vm_compute. reflexivity. }
  split.
  - split; [|split].
    + exact Hin.
    + reflexivity.
    + eexists. split; [|split].
      * apply (AddRecursive_ignored_registers unix 4 ignoring_a "/a" "/a" (dir "a"));
          [reflexivity | exact Hin | reflexivity |].
        right. by eexists.
      * simpl. apply (left_id_L ∅ (∪)).
      * simpl. apply lookup_insert_eq.
  - split; [reflexivity|]. split; [reflexivity|].
    eexists. split; [reflexivity|]. split; reflexivity.
Qed.

(** * Further properties *)

(** ** [Op.String] *)

(** X1: [String] gives ["???"] exactly for the values above [Move], and the
    six kinds have six different names. *)
Theorem Op_String_names :
  (forall e : Op, Op_String e = "???" <-> (5 < e)%N)
  /\ (forall e1 e2 : Op, (e1 <= 5)%N -> (e2 <= 5)%N ->
        Op_String e1 = Op_String e2 -> e1 = e2).
Proof.
  assert (forall e : Op, (e <= 5)%N ->
            e = Create \/ e = Write \/ e = Remove \/ e = Rename \/ e = Chmod \/ e = Move)
    as Hsix by (unfold Create, Write, Remove, Rename, Chmod, Move; lia).
  split.
  - intros e. destruct (decide (5 < e)%N) as [Hbig|Hsmall].
    + split; [done|]. intros _. unfold Op_String, op_names.
      rewrite (not_elem_of_list_to_map_1 _ e); [done|].
      cbn. unfold Create, Write, Remove, Rename, Chmod, Move.
      rewrite !elem_of_cons, elem_of_nil. lia.
    + split; [|lia]. assert (e <= 5)%N as Hle by lia.
      destruct (Hsix e Hle) as [->|[->|[->|[->|[->| ->]]]]];
        vm_compute; discriminate.
  - intros e1 e2 H1 H2.
    destruct (Hsix e1 H1) as [->|[->|[->|[->|[->| ->]]]]];
      destruct (Hsix e2 H2) as [->|[->|[->|[->|[->| ->]]]]];
      vm_compute; intros H; first [reflexivity | discriminate].
Qed.

Lemma Op_String_names_witness :
  (Op_String 7%N = "???" <-> (5 < 7)%N)
  /\ (Op_String Rename = Op_String Rename -> Rename = Rename).
Proof.
  destruct Op_String_names as [H1 H2]. split; [apply H1|].
  apply H2; unfold Rename; lia.
Defined.

(** ** [RemoveRecursive] *)

(** X2: on a tracked directory that resolves to [p], [RemoveRecursive]
    returns no error and the snapshot loses exactly the entries whose path
    has [p] as a string prefix, [p] itself included; every other entry keeps
    its metadata, the root [p] leaves the registry and the ignore set
    stays. *)
Theorem RemoveRecursive_frame (os : OS) (w : Watcher) (name p : string)
    (info : FileInfo) :
  Abs os name = Ok p ->
  files w !! p = Some info ->
  IsDir info = true ->
  exists w',
    Watcher.RemoveRecursive os w name = (w', None)
    /\ (forall q, files w' !! q = if HasPrefix q p then None else files w !! q)
    /\ names w' = delete p (names w)
    /\ ignored w' = ignored w.
Proof.
  intros Hp Hinfo Hdir. rewrite (RemoveRecursive_ok os w name p Hp).
  eexists. split; [reflexivity|]. split; [|done]. intros q. simpl.
  unfold purged. rewrite Hinfo, Hdir.
  destruct (HasPrefix q p) eqn:Hq.
  - apply map_lookup_filter_None. right. intros x _. simpl. by rewrite Hq.
  - destruct (files w !! q) as [x|] eqn:E.
    + apply map_lookup_filter_Some. by split.
    + apply map_lookup_filter_None. by left.
Qed.

Lemma RemoveRecursive_frame_witness :
  exists w',
    Watcher.RemoveRecursive unix watching_a "/a/b" = (w', None)
    /\ (forall q, files w' !! q
                  = if HasPrefix q "/a/b" then None else files watching_a !! q)
    /\ names w' = delete "/a/b" (names watching_a)
    /\ ignored w' = ignored watching_a.
Proof.
  apply (RemoveRecursive_frame unix watching_a "/a/b" "/a/b" (dir "b")); reflexivity.
Defined.

(** The prefix is a prefix of strings: [/a/bc] goes with [/a/b]. *)
Example RemoveRecursive_takes_sibling :
  files watching_a !! "/a/bc" = Some (file "bc")
  /\ files (Watcher.RemoveRecursive unix watching_a "/a/b").1 !! "/a/bc" = None
  /\ files (Watcher.RemoveRecursive unix watching_a "/a/b").1 !! "/a" = Some (dir "a").
Proof. repeat split; reflexivity. Qed.

(** X3: [Remove] and [RemoveRecursive] fail exactly when [filepath.Abs]
    fails, with its error; and on a path that is not tracked as a directory
    (not a snapshot key, or a file) the two do the same. *)
Theorem Remove_agrees_with_RemoveRecursive (os : OS) (w : Watcher) (name : string) :
  (forall e, (Watcher.Remove os w name).2 = Some e <-> Abs os name = Err e)
  /\ (forall e, (Watcher.RemoveRecursive os w name).2 = Some e <-> Abs os name = Err e)
  /\ ((forall p info, Abs os name = Ok p -> files w !! p = Some info ->
         IsDir info = false) ->
      Watcher.Remove os w name = Watcher.RemoveRecursive os w name).
Proof.
  unfold Watcher.Remove, Watcher.RemoveRecursive.
  destruct (Abs os name) as [p|e0] eqn:Hp; simpl.
  - split; [|split].
    + intros e. destruct (files w !! p) as [i|]; [destruct (IsDir i)|];
        simpl; split; discriminate.
    + intros e. destruct (files w !! p) as [i|]; [destruct (IsDir i)|];
        simpl; split; discriminate.
    + intros Hfile. destruct (files w !! p) as [i|] eqn:Hi; [|done].
      by rewrite (Hfile p i eq_refl Hi).
  - split; [|split]; [| |done]; intros e; split; intros [= ->]; done.
Qed.

Lemma Remove_agrees_with_RemoveRecursive_witness :
  ((Watcher.Remove unix watching_a "bc").2 = Some (ErrOther 2)
   <-> Abs unix "bc" = Err (ErrOther 2))
  /\ Watcher.Remove unix watching_a "/a/bc"
     = Watcher.RemoveRecursive unix watching_a "/a/bc".
Proof.
  destruct (Remove_agrees_with_RemoveRecursive unix watching_a "bc") as (H1 & _ & _).
  destruct (Remove_agrees_with_RemoveRecursive unix watching_a "/a/bc") as (_ & _ & H3).
  split; [apply H1|]. apply H3.
  intros p info [= <-] Hi. vm_compute in Hi. by inversion Hi.
Defined.

(** ** Errors *)

(** X4: a call of [Add], [AddRecursive], [Remove] or [RemoveRecursive] that
    returns an error has changed nothing. *)
Theorem error_leaves_watcher (os : OS) (fuel : nat) (w : Watcher) (name : string) :
  ((Watcher.Add os w name).2 <> None -> (Watcher.Add os w name).1 = w)
  /\ (forall r, Watcher.AddRecursive os fuel w name = Some r ->
        r.2 <> None -> r.1 = w)
  /\ ((Watcher.Remove os w name).2 <> None -> (Watcher.Remove os w name).1 = w)
  /\ ((Watcher.RemoveRecursive os w name).2 <> None ->
      (Watcher.RemoveRecursive os w name).1 = w).
Proof.
  split; [|split; [|split]].
  - unfold Watcher.Add. destruct (Abs os name) as [p|e0]; [|done].
    destruct (Watcher.skipped w p p); [done|].
    destruct (Watcher.list os w p); done.
  - unfold Watcher.AddRecursive. intros r.
    destruct (Abs os name) as [p|e0]; [|by intros [= <-]].
    destruct (Watcher.listRecursive os fuel w p) as [[l [e1|]]|];
      [by intros [= <-] | by intros [= <-] | done].
  - unfold Watcher.Remove. destruct (Abs os name) as [p|e0]; [|done].
    simpl. destruct (files w !! p) as [i|]; [destruct (IsDir i)|]; done.
  - unfold Watcher.RemoveRecursive. destruct (Abs os name) as [p|e0]; [|done].
    simpl. destruct (files w !! p) as [i|]; [destruct (IsDir i)|]; done.
Qed.

Lemma error_leaves_watcher_witness :
  (Watcher.Add unix watching_a "/nowhere").1 = watching_a
  /\ Watcher.AddRecursive unix 5 watching_a "/nowhere"
     = Some (watching_a, Some ErrNotExist)
  /\ (Watcher.Remove unix watching_a "bc").1 = watching_a
  /\ (Watcher.RemoveRecursive unix watching_a "bc").1 = watching_a.
Proof.
  destruct (error_leaves_watcher unix 5 watching_a "/nowhere") as (H1 & H2 & _ & _).
  destruct (error_leaves_watcher unix 5 watching_a "bc") as (_ & _ & H3 & H4).
  split; [apply H1; by vm_compute|].
  split; [|split; [apply H3; by vm_compute | apply H4; by vm_compute]].
  destruct (Watcher.AddRecursive unix 5 watching_a "/nowhere") as [[w' o]|] eqn:E;
    [|by vm_compute in E].
  assert (o = Some ErrNotExist) as ->.
  { assert (match Watcher.AddRecursive unix 5 watching_a "/nowhere" with
            | Some r => r.2 | None => None end = Some ErrNotExist) as Ho
      by (vm_compute; reflexivity).
    by rewrite E in Ho. }
  pose proof (H2 _ eq_refl ltac:(discriminate)) as Hw. simpl in Hw. by rewrite Hw.
Defined.

(** ** [Close] and a second [Start] *)

(** X5: [Close] does nothing to a watcher that is not running and is
    idempotent; on a running watcher it clears the flag, the snapshot and
    the roots, and keeps the ignore set, the filter, the cap and the hidden
    flag. *)
Theorem Close_clears (w : Watcher) :
  Watcher.Close (Watcher.Close w) = Watcher.Close w
  /\ (runnning w = false -> Watcher.Close w = w)
  /\ (runnning w = true ->
      runnning (Watcher.Close w) = false
      /\ files (Watcher.Close w) = ∅
      /\ names (Watcher.Close w) = ∅
      /\ same_config w (Watcher.Close w)).
Proof.
  unfold Watcher.Close. destruct (runnning w) eqn:Hr; simpl.
  - split; [done|]. split; [done|]. intros _. by repeat split.
  - rewrite Hr. simpl. split; [done|]. split; done.
Qed.

Lemma Close_clears_witness :
  Watcher.Close (set_runnning watching_a false) = set_runnning watching_a false
  /\ (runnning (Watcher.Close (set_runnning watching_a true)) = false
      /\ files (Watcher.Close (set_runnning watching_a true)) = ∅
      /\ names (Watcher.Close (set_runnning watching_a true)) = ∅
      /\ same_config (set_runnning watching_a true)
                     (Watcher.Close (set_runnning watching_a true))).
Proof.
  destruct (Close_clears (set_runnning watching_a false)) as (_ & H1 & _).
  destruct (Close_clears (set_runnning watching_a true)) as (_ & _ & H2).
  split; [apply H1 | apply H2]; reflexivity.
Defined.

(** X6: a watcher that was started and closed cannot be started again.  The
    first [Start] takes the counter of the [WaitGroup] from 1 to 0, [Close]
    only clears the flag, and in the second [Start] the call of [wg.Done]
    goes below zero and panics. *)
Theorem Start_after_Close_panics (w : Watcher) (d d' : Z) :
  runnning w = false -> wg w = 1 -> 1 <= d -> 1 <= d' ->
  (Watcher.Start_enter w d).2 = Watcher.Loops
  /\ (Watcher.Start_enter (Watcher.Close (Watcher.Start_enter w d).1) d').2
     = Watcher.Panics.
Proof.
  intros Hr Hwg Hd Hd'. unfold Watcher.Start_enter.
  assert ((d <? 1) = false) as -> by lia.
  assert ((d' <? 1) = false) as -> by lia.
  rewrite Hr. simpl. rewrite Hwg. simpl. done.
Qed.

Lemma Start_after_Close_panics_witness :
  (Watcher.Start_enter New 1000).2 = Watcher.Loops
  /\ (Watcher.Start_enter (Watcher.Close (Watcher.Start_enter New 1000).1) 1000).2
     = Watcher.Panics.
Proof. apply (Start_after_Close_panics New 1000 1000); [reflexivity | reflexivity | lia | lia]. Defined.

(** ** The filter and the cap *)

(** X7: after [FilterOps] an event passes the test of the inner loop exactly
    when no kind was given or its kind is among those given; an event of
    another kind is dropped with the counter as it was. *)
Theorem FilterOps_passes (w : Watcher) (l : list Op) (event : Event) :
  (passes (FilterOps w l) event = true <-> l = [] \/ EvOp event ∈ l)
  /\ (l <> [] -> EvOp event ∉ l -> forall c rest,
        Watcher.dispatch (FilterOps w l) c (Watcher.OnEvt event :: rest)
        = Watcher.dispatch (FilterOps w l) c rest).
Proof.
  assert (l <> [] -> (list_to_set l : gset Op) <> ∅) as Hne.
  { destruct l as [|x l]; [done|]. intros _ Hempty.
    assert (x ∈ (list_to_set (x :: l) : gset Op)) as Hx
      by (apply elem_of_list_to_set; by left).
    rewrite Hempty in Hx. by apply not_elem_of_empty in Hx. }
  assert (passes (FilterOps w l) event = true <-> l = [] \/ EvOp event ∈ l) as Hiff.
  { unfold passes. simpl. destruct l as [|x l].
    - rewrite list_to_set_nil. rewrite bool_decide_eq_false_2 by (intros H; by apply H).
      simpl. split; [by left | done].
    - assert (x :: l <> []) as Hxl by discriminate.
      rewrite (bool_decide_eq_true_2 _ (Hne Hxl)).
      rewrite andb_true_l, negb_involutive, bool_decide_eq_true, elem_of_list_to_set.
      split; [by right | by intros [?|?]]. }
  split; [exact Hiff|].
  intros Hl Hnot c rest. apply dispatch_filtered.
  apply not_true_is_false. intros E. apply Hiff in E as [?|?]; done.
Qed.

Lemma FilterOps_passes_witness :
  (passes (FilterOps New [Write; Chmod]) ev2 = true
   <-> [Write; Chmod] = [] \/ EvOp ev2 ∈ [Write; Chmod])
  /\ (forall c rest,
        Watcher.dispatch (FilterOps New [Write; Chmod]) c (Watcher.OnEvt ev3 :: rest)
        = Watcher.dispatch (FilterOps New [Write; Chmod]) c rest).
Proof.
  destruct (FilterOps_passes New [Write; Chmod] ev2) as [H1 _].
  destruct (FilterOps_passes New [Write; Chmod] ev3) as [_ H2].
  split; [exact H1|]. apply H2; [discriminate|].
  intros [H|[H|H%elem_of_nil]%elem_of_cons]%elem_of_cons; [discriminate | discriminate | done].
Defined.

(** X8: a cap that is zero or negative is no cap.  Whatever the counter is,
    the inner loop forwards every event that passes the filter and that it
    receives before a value on [done] or [w.close]. *)
Theorem SetMaxEvents_nonpositive (w : Watcher) (delta c : Z)
    (inbox : list Watcher.msg) :
  delta <= 0 ->
  (Watcher.dispatch (SetMaxEvents w delta) c inbox).1
  = filter (passes w) (received inbox).
Proof.
  intros Hd. by rewrite (dispatch_uncapped (SetMaxEvents w delta) inbox c Hd).
Qed.

Lemma SetMaxEvents_nonpositive_witness :
  (Watcher.dispatch (SetMaxEvents capped_watcher (-1)) 0
     [Watcher.OnEvt ev3; Watcher.OnEvt ev1; Watcher.OnEvt ev2; Watcher.OnDone]).1
  = filter (passes capped_watcher)
      (received [Watcher.OnEvt ev3; Watcher.OnEvt ev1; Watcher.OnEvt ev2; Watcher.OnDone]).
Proof. apply (SetMaxEvents_nonpositive capped_watcher (-1) 0). lia. Defined.

(** ** [Ignore], again and before [Add] *)

(** X9: once a path is ignored, [Add] of it returns no error and changes
    nothing. *)
Theorem Add_after_Ignore (os : OS) (w : Watcher) (p q : string) :
  Abs os p = Ok q -> Abs os q = Ok q ->
  exists w',
    Watcher.Ignore os w [p] = (w', None)
    /\ Watcher.Add os w' p = (w', None)
    /\ names w' !! q = None /\ files w' !! q = None.
Proof.
  intros Hp Hq. exists (ignore_one w q).
  split; [by rewrite (Ignore_cons_ok os w p q [] Hp Hq)|].
  split; [|split; [apply lookup_delete_eq | apply purged_self]].
  apply (Add_ignored_noop os _ p q Hp). simpl.
  apply elem_of_union. left. by apply elem_of_singleton.
Qed.

Lemma Add_after_Ignore_witness :
  exists w',
    Watcher.Ignore unix watching_a ["/a/b"] = (w', None)
    /\ Watcher.Add unix w' "/a/b" = (w', None)
    /\ names w' !! "/a/b" = None /\ files w' !! "/a/b" = None.
Proof. apply (Add_after_Ignore unix watching_a "/a/b" "/a/b"); reflexivity. Defined.

(** X10: ignoring a path twice is ignoring it once. *)
Theorem Ignore_twice (os : OS) (w : Watcher) (p q : string) :
  Abs os p = Ok q -> Abs os q = Ok q ->
  Watcher.Ignore os w [p; p] = Watcher.Ignore os w [p].
Proof.
  intros Hp Hq. rewrite !(Ignore_cons_ok os _ p q _ Hp Hq). simpl.
  f_equal. unfold ignore_one. simpl. f_equal.
  - apply delete_delete_eq.
  - unfold purged at 1. simpl. by rewrite purged_self.
  - by rewrite (assoc_L (∪)), (idemp_L (∪)).
Qed.

Lemma Ignore_twice_witness :
  Watcher.Ignore unix watching_a ["/a/b"; "/a/b"] = Watcher.Ignore unix watching_a ["/a/b"].
Proof. apply (Ignore_twice unix watching_a "/a/b" "/a/b"); reflexivity. Defined.

(** ** What a listing holds *)

Section ListKeys.
Context (os : OS).

(** The loop of [list] over the entries of a directory. *)
Lemma list_fold_keys (w : Watcher) (r : string) (l : list FileInfo) :
  forall m0 : gmap string FileInfo,
    let m := fold_left (Watcher.list_child os w r) l m0 in
    (forall k i, m !! k = Some i ->
       m0 !! k = Some i
       \/ exists fInfo, fInfo ∈ l /\ k = Join os r (Name fInfo)
                        /\ Watcher.skipped w k (Name fInfo) = false /\ i = fInfo)
    /\ (forall k, is_Some (m0 !! k) -> is_Some (m !! k))
    /\ (forall fInfo, fInfo ∈ l ->
          Watcher.skipped w (Join os r (Name fInfo)) (Name fInfo) = false ->
          is_Some (m !! Join os r (Name fInfo))).
Proof.
  induction l as [|fInfo l IH]; intros m0; simpl.
  - split; [by left|]. split; [done|]. by intros fInfo ?%elem_of_nil.
  - destruct (IH (Watcher.list_child os w r m0 fInfo)) as (Hin & Hkeep & Hall).
    assert (forall k, is_Some (m0 !! k) ->
              is_Some (Watcher.list_child os w r m0 fInfo !! k)) as Hstep.
    { intros k Hk. unfold Watcher.list_child.
      destruct (Watcher.skipped w _ _); [done|].
      destruct (decide (Join os r (Name fInfo) = k)) as [->|Hne].
      - rewrite lookup_insert_eq. by eexists.
      - by rewrite lookup_insert_ne. }
    split; [|split].
    + intros k i Hk. destruct (Hin k i Hk) as [H0|(f & Hf & Hrest)].
      * unfold Watcher.list_child in H0.
        destruct (Watcher.skipped w (Join os r (Name fInfo)) (Name fInfo)) eqn:Hs;
          [by left|].
        apply lookup_insert_Some in H0 as [[<- <-]|[_ H0]]; [|by left].
        right. exists fInfo. split; [by left | done].
      * right. exists f. split; [by right | done].
    + intros k Hk. by apply Hkeep, Hstep.
    + intros f [->|Hf]%elem_of_cons Hs; [|by apply Hall].
      apply Hkeep. unfold Watcher.list_child. rewrite Hs.
      rewrite lookup_insert_eq. by eexists.
Qed.

(** The two ways in which [list] returns a map. *)
Lemma list_unfold (w : Watcher) (r : string) (m : gmap string FileInfo) :
  Watcher.list os w r = Ok m ->
  exists stat, Stat os r = Ok stat
    /\ ((IsDir stat = false /\ m = {[ r := stat ]})
        \/ (IsDir stat = true
            /\ exists l, ReadDir os r = Ok l
                 /\ m = fold_left (Watcher.list_child os w r) l {[ r := stat ]})).
Proof.
  unfold Watcher.list. destruct (Stat os r) as [stat|e]; [|done].
  intros Hl. exists stat. split; [done|]. destruct (IsDir stat); simpl in Hl.
  - destruct (ReadDir os r) as [l|e]; [|done]. inversion Hl; subst m. right.
    split; [done|]. by exists l.
  - inversion Hl; subst m. by left.
Qed.

Lemma Remove_shrinks (w : Watcher) (name : string) :
  names (Watcher.Remove os w name).1 ⊆ names w
  /\ files (Watcher.Remove os w name).1 ⊆ files w
  /\ runnning (Watcher.Remove os w name).1 = runnning w
  /\ wg (Watcher.Remove os w name).1 = wg w.
Proof.
  unfold Watcher.Remove. destruct (Abs os name) as [p|e]; [|done]. simpl.
  destruct (files w !! p) as [i|]; [destruct (IsDir i)|]; simpl;
    (split; [apply delete_subseteq|]); (split; [|done]); try done.
  - etrans; [apply map_filter_subseteq | apply delete_subseteq].
  - apply delete_subseteq.
Qed.

Lemma RemoveRecursive_shrinks (w : Watcher) (name : string) :
  names (Watcher.RemoveRecursive os w name).1 ⊆ names w
  /\ files (Watcher.RemoveRecursive os w name).1 ⊆ files w
  /\ runnning (Watcher.RemoveRecursive os w name).1 = runnning w
  /\ wg (Watcher.RemoveRecursive os w name).1 = wg w.
Proof.
  unfold Watcher.RemoveRecursive. destruct (Abs os name) as [p|e]; [|done]. simpl.
  destruct (files w !! p) as [i|]; [destruct (IsDir i)|]; simpl;
    (split; [apply delete_subseteq|]); (split; [|done]); try done.
  - apply map_filter_subseteq.
  - apply delete_subseteq.
Qed.

(** One root of a listing pass: the watcher only shrinks, and changes only
    together with an error sent. *)
Lemma retrieve_step_shrinks (fuel : nat) (w w' : Watcher)
    (fl fl' : gmap string FileInfo) (errs errs' : list error) (nr : string * bool) :
  Watcher.retrieve_step os fuel (Some (w, fl, errs)) nr = Some (w', fl', errs') ->
  names w' ⊆ names w /\ files w' ⊆ files w
  /\ runnning w' = runnning w /\ wg w' = wg w
  /\ exists more, errs' = errs ++ more /\ (length more <= 1)%nat
                  /\ (more = [] -> w' = w).
Proof.
  unfold Watcher.retrieve_step. destruct (nr.2).
  - destruct (Watcher.listRecursive os fuel w nr.1) as [[l [e|]]|]; [| |done].
    + destruct (IsNotExist e); intros [= <- _ <-].
      * destruct (RemoveRecursive_shrinks w nr.1) as (? & ? & ? & ?).
        repeat split; try done. by exists [ErrWatchedFileDeleted].
      * repeat split; try done. by exists [e].
    + intros [= <- _ <-]. repeat split; try done. exists [].
      split; [by rewrite app_nil_r | split; [simpl; lia | done]].
  - destruct (Watcher.list os w nr.1) as [l|e].
    + intros [= <- _ <-]. repeat split; try done. exists [].
      split; [by rewrite app_nil_r | split; [simpl; lia | done]].
    + destruct (IsNotExist e); intros [= <- _ <-].
      * destruct (Remove_shrinks w nr.1) as (? & ? & ? & ?).
        repeat split; try done. by exists [ErrWatchedFileDeleted].
      * repeat split; try done. by exists [e].
Qed.

Lemma retrieve_fold_shrinks (fuel : nat) (l : list (string * bool)) :
  forall w fl errs w' fl' errs',
    fold_left (Watcher.retrieve_step os fuel) l (Some (w, fl, errs))
    = Some (w', fl', errs') ->
    names w' ⊆ names w /\ files w' ⊆ files w
    /\ runnning w' = runnning w /\ wg w' = wg w
    /\ exists more, errs' = errs ++ more /\ (length more <= length l)%nat
                    /\ (more = [] -> w' = w).
Proof.
  induction l as [|nr l IH]; intros w fl errs w' fl' errs' Hrun.
  - simpl in Hrun. inversion Hrun; subst. repeat split; try done.
    exists []. split; [by rewrite app_nil_r | split; [simpl; lia | done]].
  - cbn [fold_left] in Hrun.
    destruct (Watcher.retrieve_step os fuel (Some (w, fl, errs)) nr)
      as [[[w1 fl1] errs1]|] eqn:Hstep.
    + apply retrieve_step_shrinks in Hstep
        as (Hn1 & Hf1 & Hr1 & Hw1 & more1 & -> & Hlen1 & Hsame1).
      apply IH in Hrun as (Hn2 & Hf2 & Hr2 & Hw2 & more2 & -> & Hlen2 & Hsame2).
      split; [by etrans|]. split; [by etrans|].
      split; [congruence|]. split; [congruence|].
      exists (more1 ++ more2). split; [by rewrite app_assoc|].
      split; [rewrite length_app; simpl; lia|].
      intros [-> ->]%app_eq_nil. rewrite Hsame2 by done. by apply Hsame1.
    + by rewrite retrieve_fold_None in Hrun.
Qed.
End ListKeys.

(** X11: a map returned by [list] holds the listed path with the result of
    [os.Stat], and beside it only children of a directory that are not
    skipped, each under [filepath.Join] of the path and its name and with the
    [FileInfo] that [ioutil.ReadDir] gave; and every child that is not
    skipped is in the map.  So no ignored child is listed and, with hidden
    files suppressed, no child whose name starts with a dot. *)
Theorem list_keys (os : OS) (w : Watcher) (r : string) (m : gmap string FileInfo) :
  Watcher.list os w r = Ok m ->
  exists stat,
    Stat os r = Ok stat
    /\ is_Some (m !! r)
    /\ (forall k i, m !! k = Some i ->
          (k = r /\ i = stat)
          \/ exists l fInfo,
               IsDir stat = true /\ ReadDir os r = Ok l /\ fInfo ∈ l
               /\ k = Join os r (Name fInfo) /\ i = fInfo
               /\ (k ∉ ignored w)
               /\ (ignoreHidden w = true -> HasPrefix (Name fInfo) "." = false))
    /\ (forall l fInfo, IsDir stat = true -> ReadDir os r = Ok l -> fInfo ∈ l ->
          Watcher.skipped w (Join os r (Name fInfo)) (Name fInfo) = false ->
          is_Some (m !! Join os r (Name fInfo))).
Proof.
  intros Hlist. destruct (list_unfold os w r m Hlist) as (stat & Hstat & Hcase).
  exists stat. split; [done|].
  destruct Hcase as [[Hdir ->]|(Hdir & l & Hread & ->)].
  - split; [rewrite lookup_singleton_eq; by eexists|]. split.
    + intros k i [<- <-]%lookup_singleton_Some. by left.
    + intros l fInfo Hd. congruence.
  - destruct (list_fold_keys os w r l {[ r := stat ]}) as (Hin & Hkeep & Hall).
    split; [apply Hkeep; rewrite lookup_singleton_eq; by eexists|]. split.
    + intros k i Hk. destruct (Hin k i Hk) as [H0|(f & Hf & -> & Hs & ->)].
      * apply lookup_singleton_Some in H0 as [<- <-]. by left.
      * right. exists l, f. repeat split; try done.
        -- intros Hig. by rewrite (skipped_ignored w _ _ Hig) in Hs.
        -- intros Hh. unfold Watcher.skipped in Hs. rewrite Hh in Hs.
           apply orb_false_iff in Hs as [_ Hs]. done.
    + intros l' fInfo _ Hread' Hf Hs. rewrite Hread in Hread'.
      inversion Hread'; subst l'. by apply Hall.
Qed.

Lemma list_keys_witness :
  exists stat,
    Stat unix "/a" = Ok stat
    /\ is_Some (listing_a !! "/a")
    /\ (forall k i, listing_a !! k = Some i ->
          (k = "/a" /\ i = stat)
          \/ exists l fInfo,
               IsDir stat = true /\ ReadDir unix "/a" = Ok l /\ fInfo ∈ l
               /\ k = Join unix "/a" (Name fInfo) /\ i = fInfo
               /\ (k ∉ ignored hiding)
               /\ (ignoreHidden hiding = true -> HasPrefix (Name fInfo) "." = false))
    /\ (forall l fInfo, IsDir stat = true -> ReadDir unix "/a" = Ok l -> fInfo ∈ l ->
          Watcher.skipped hiding (Join unix "/a" (Name fInfo)) (Name fInfo) = false ->
          is_Some (listing_a !! Join unix "/a" (Name fInfo))).
Proof. apply (list_keys unix hiding "/a" listing_a). vm_compute. reflexivity. Defined.

(** X12: a listing pass only deregisters.  The roots and the snapshot of the
    watcher it returns are among those it started with, the other fields are
    as they were, it sends at most one error per root, and when it sends
    none the watcher is unchanged. *)
Theorem retrieveFileList_only_deregisters (os : OS) (fuel : nat)
    (rn : gmap string bool -> list (string * bool)) (w w' : Watcher)
    (fl : gmap string FileInfo) (errs : list error) :
  Watcher.retrieveFileList os fuel rn w = Some (w', fl, errs) ->
  names w' ⊆ names w /\ files w' ⊆ files w
  /\ same_config w w' /\ runnning w' = runnning w /\ wg w' = wg w
  /\ (length errs <= length (rn (names w)))%nat
  /\ (errs = [] -> w' = w).
Proof.
  intros Hrun. pose proof (retrieveFileList_same_config _ _ _ _ _ _ _ Hrun) as Hcfg.
  apply retrieve_fold_shrinks in Hrun
    as (Hn & Hf & Hr & Hw & more & Hm & Hlen & Hsame).
  simpl in Hm. subst errs.
  split; [done|]. split; [done|]. split; [done|]. split; [done|].
  split; [done|]. split; done.
Qed.

Lemma retrieveFileList_only_deregisters_witness :
  exists w' fl errs,
    Watcher.retrieveFileList unix 5 names_fixed watching_gone = Some (w', fl, errs)
    /\ names w' ⊆ names watching_gone /\ files w' ⊆ files watching_gone
    /\ same_config watching_gone w'
    /\ runnning w' = runnning watching_gone /\ wg w' = wg watching_gone
    /\ (length errs <= length (names_fixed (names watching_gone)))%nat
    /\ (errs = [] -> w' = watching_gone).
Proof.
  destruct (Watcher.retrieveFileList unix 5 names_fixed watching_gone)
    as [[[w' fl] errs]|] eqn:E; [|by vm_compute in E].
  exists w', fl, errs. split; [reflexivity|].
  apply (retrieveFileList_only_deregisters unix 5 names_fixed watching_gone w' fl errs E).
Defined.

(** The root that is gone is reported and deregistered, the other one is
    listed. *)
Example root_gone :
  match Watcher.retrieveFileList unix 5 names_fixed watching_gone with
  | Some (w', fl, errs) =>
      errs = [ErrWatchedFileDeleted] /\ names w' = names watching_a
      /\ fl = files watching_a
  | None => False
  end.
Proof. vm_compute. repeat split; reflexivity. Qed.

Section RecursiveKeys.
Context (os : OS).

Lemma listRecursive_fn_unskipped (w : Watcher) (path : string) (a : walkarg)
    (fl : gmap string FileInfo) :
  (forall k i, fl !! k = Some i -> Watcher.skipped w k (Name i) = false) ->
  forall k i, (Watcher.listRecursive_fn w path a fl).1 !! k = Some i ->
              Watcher.skipped w k (Name i) = false.
Proof.
  intros Hfl k i. unfold Watcher.listRecursive_fn.
  destruct a as [info [e|]|e]; [by apply Hfl| |by apply Hfl].
  destruct (Watcher.skipped w path (Name info)) eqn:Hs; [by apply Hfl|].
  simpl. intros [[<- <-]|[_ H]]%lookup_insert_Some; [done | by apply Hfl].
Qed.

Lemma listRecursive_fn_root (w : Watcher) (r path : string) (a : walkarg)
    (fl : gmap string FileInfo) :
  is_Some (fl !! r) -> is_Some ((Watcher.listRecursive_fn w path a fl).1 !! r).
Proof.
  intros Hr. unfold Watcher.listRecursive_fn.
  destruct a as [info [e|]|e]; [done| |done].
  destruct (Watcher.skipped w path (Name info)); [done|]. simpl.
  destruct (decide (path = r)) as [->|Hne].
  - rewrite lookup_insert_eq. by eexists.
  - by rewrite lookup_insert_ne.
Qed.
End RecursiveKeys.

(** X13: a map returned by [listRecursive], with or without an error of the
    walk, holds no ignored path and, with hidden files suppressed, no entry
    whose name starts with a dot.  It is empty when [Lstat] of the root fails
    (and the error is that of [Lstat]) and when the root itself is skipped;
    it holds the root when the root is not skipped and is a file or a
    directory that can be read. *)
Theorem listRecursive_only_unskipped (os : OS) (fuel : nat) (w : Watcher)
    (r : string) (m : gmap string FileInfo) (e : option error) :
  Watcher.listRecursive os fuel w r = Some (m, e) ->
  (forall k i, m !! k = Some i ->
     (k ∉ ignored w)
     /\ (ignoreHidden w = true -> HasPrefix (Name i) "." = false))
  /\ (forall e0, Lstat os r = Err e0 -> m = ∅ /\ e = Some e0)
  /\ (forall info, Lstat os r = Ok info ->
        Watcher.skipped w r (Name info) = true -> m = ∅)
  /\ (forall info, Lstat os r = Ok info ->
        Watcher.skipped w r (Name info) = false ->
        IsDir info = false \/ (exists l, readDirNames os r = Ok l) ->
        is_Some (m !! r)).
Proof.
  intros Hrun. split; [|split; [|split]].
  - intros k i Hk.
    assert (Watcher.skipped w k (Name i) = false) as Hs.
    { unfold Watcher.listRecursive in Hrun.
      assert (forall k i, (∅ : gmap string FileInfo) !! k = Some i ->
                Watcher.skipped w k (Name i) = false) as Hinit
        by (intros k' i' Hk'; by rewrite lookup_empty in Hk').
      pose proof (Walk_keeps os (Watcher.listRecursive_fn w)
                    (fun fl : gmap string FileInfo =>
                       forall k i, fl !! k = Some i ->
                                   Watcher.skipped w k (Name i) = false)
                    (fun path a st => listRecursive_fn_unskipped w path a st)
                    fuel r ∅ (m, e) Hinit Hrun) as Hall.
      by apply Hall. }
    unfold Watcher.skipped in Hs. apply orb_false_iff in Hs as [Hig Hhid]. split.
    + by apply bool_decide_eq_false in Hig.
    + intros Hh. by rewrite Hh in Hhid.
  - intros e0 HL. unfold Watcher.listRecursive, Walk in Hrun. rewrite HL in Hrun.
    simpl in Hrun. by inversion Hrun.
  - intros info HL Hs. unfold Watcher.listRecursive, Walk in Hrun.
    rewrite HL in Hrun. destruct fuel as [|fuel]; [done|]. cbn [walk] in Hrun.
    unfold Watcher.listRecursive_fn in Hrun. rewrite Hs in Hrun.
    destruct (IsDir info); simpl in Hrun.
    + destruct (readDirNames os r); by inversion Hrun.
    + by inversion Hrun.
  - intros info HL Hs Hread. unfold Watcher.listRecursive, Walk in Hrun.
    rewrite HL in Hrun. destruct fuel as [|fuel]; [done|]. cbn [walk] in Hrun.
    assert (Watcher.listRecursive_fn w r (Visited info None) ∅
            = (<[ r := info ]> ∅, None)) as Hfn
      by (unfold Watcher.listRecursive_fn; by rewrite Hs).
    destruct (IsDir info) eqn:Hdir; cbn [negb] in Hrun.
    + destruct Hread as [?|[l Hl]]; [done|]. rewrite Hl, Hfn in Hrun.
      destruct (walk_names os (Watcher.listRecursive_fn w)
                  (walk os (Watcher.listRecursive_fn w) fuel) r l
                  (<[ r := info ]> ∅)) as [[st' o]|] eqn:Hw; [|done].
      assert (is_Some (st' !! r)) as Hroot.
      { apply (walk_names_keeps os (Watcher.listRecursive_fn w)
                 (fun fl : gmap string FileInfo => is_Some (fl !! r))
                 (fun path a st => listRecursive_fn_root w r path a st)
                 (walk os (Watcher.listRecursive_fn w) fuel)
                 (walk_keeps os (Watcher.listRecursive_fn w)
                    (fun fl : gmap string FileInfo => is_Some (fl !! r))
                    (fun path a st => listRecursive_fn_root w r path a st) fuel)
                 l r (<[ r := info ]> ∅) (st', o)); [|exact Hw].
        rewrite lookup_insert_eq. by eexists. }
      destruct o as [[|e']|]; by inversion Hrun; subst.
    + rewrite Hfn in Hrun.
      inversion Hrun; subst. rewrite lookup_insert_eq. by eexists.
Qed.

Lemma listRecursive_only_unskipped_witness :
  (forall k i, listing_a_deep !! k = Some i ->
     (k ∉ ignored hiding)
     /\ (ignoreHidden hiding = true -> HasPrefix (Name i) "." = false))
  /\ (forall e0, Lstat unix "/a" = Err e0 -> listing_a_deep = ∅ /\ None = Some e0)
  /\ (forall info, Lstat unix "/a" = Ok info ->
        Watcher.skipped hiding "/a" (Name info) = true -> listing_a_deep = ∅)
  /\ (forall info, Lstat unix "/a" = Ok info ->
        Watcher.skipped hiding "/a" (Name info) = false ->
        IsDir info = false \/ (exists l, readDirNames unix "/a" = Ok l) ->
        is_Some (listing_a_deep !! "/a")).
Proof.
  apply (listRecursive_only_unskipped unix 5 hiding "/a" listing_a_deep None).
  vm_compute. reflexivity.
Defined.

(** ** [Add] and then [Remove] *)

Lemma Remove_untracked (os : OS) (w : Watcher) (name p : string) :
  Abs os name = Ok p -> names w !! p = None -> files w !! p = None ->
  Watcher.Remove os w name = (w, None).
Proof.
  intros Hp Hn Hf. unfold Watcher.Remove. rewrite Hp. simpl. rewrite Hf.
  destruct w as [run nm fs ig op ih mx wgc]. unfold set_names. simpl in *.
  by rewrite (delete_id nm p Hn).
Qed.

(** X14: [Remove] undoes [Add].  When the path is neither a root nor a
    snapshot key, no tracked entry has it as its [filepath.Dir], and
    [filepath.Dir] of every child that [ioutil.ReadDir] gives is the path
    itself, then [Add] followed by [Remove] of the same name gives back the
    watcher, whether [Add] listed a file, listed a directory, was skipped or
    failed. *)
Theorem Remove_after_Add (os : OS) (w : Watcher) (name p : string) :
  Abs os name = Ok p ->
  names w !! p = None -> files w !! p = None ->
  (forall q, is_Some (files w !! q) -> Dir os q <> p) ->
  (forall l fInfo, ReadDir os p = Ok l -> fInfo ∈ l ->
     Dir os (Join os p (Name fInfo)) = p /\ Join os p (Name fInfo) <> p) ->
  Watcher.Remove os (Watcher.Add os w name).1 name = (w, None).
Proof.
  intros Hp Hn Hf Hfree Hchild.
  unfold Watcher.Add. rewrite Hp.
  destruct (Watcher.skipped w p p); [by apply (Remove_untracked os w name p)|].
  destruct (Watcher.list os w p) as [m|e] eqn:Hlist;
    [|by apply (Remove_untracked os w name p)].
  destruct (list_unfold os w p m Hlist) as (stat & Hstat & Hcase). simpl.
  unfold Watcher.Remove. rewrite Hp. simpl.
  assert (delete p (<[ p := false ]> (names w)) = names w) as Hnames
    by (by apply delete_insert_id).
  destruct Hcase as [[Hdir ->]|(Hdir & l & Hread & Hm)].
  - rewrite <- insert_union_singleton_l, lookup_insert_eq, Hdir. simpl.
    rewrite (delete_insert_id (files w) p stat Hf).
    destruct w as [run nm fs ig op ih mx wgc]. unfold set_files, set_names.
    simpl in *. by rewrite Hnames.
  - destruct (list_fold_keys os w p l {[ p := stat ]}) as (Hin & Hkeep & _).
    rewrite <- Hm in Hin, Hkeep.
    assert (forall k i, m !! k = Some i -> (k = p /\ i = stat) \/ (k <> p /\ Dir os k = p))
      as Hkeys.
    { intros k i Hk. destruct (Hin k i Hk) as [H0|(f & Hf' & -> & _ & ->)].
      - apply lookup_singleton_Some in H0 as [<- <-]. by left.
      - right. destruct (Hchild l f Hread Hf') as [H1 H2]. by split. }
    assert (m !! p = Some stat) as Hroot.
    { destruct (Hkeep p) as [i Hi]; [rewrite lookup_singleton_eq; by eexists|].
      destruct (Hkeys p i Hi) as [[_ ->]|[? _]]; done. }
    rewrite (lookup_union_Some_l m (files w) p stat Hroot), Hdir. simpl.
    assert (filter (fun kv : string * FileInfo => Dir os kv.1 <> p)
                   (delete p (m ∪ files w)) = files w) as Hfiles.
    { apply map_eq. intros q. destruct (files w !! q) as [x|] eqn:Hq.
      - assert (Dir os q <> p) as Hd by (apply Hfree; by eexists).
        assert (q <> p) as Hne by (intros ->; congruence).
        assert (m !! q = None) as Hmq.
        { destruct (m !! q) as [i|] eqn:E; [|done].
          destruct (Hkeys q i E) as [[? _]|[_ ?]]; done. }
        apply map_lookup_filter_Some. split; [|done].
        rewrite lookup_delete_ne by done.
        by rewrite (lookup_union_r m (files w) q Hmq).
      - apply map_lookup_filter_None. right. intros x Hx. simpl.
        destruct (decide (q = p)) as [->|Hne];
          [by rewrite lookup_delete_eq in Hx|].
        rewrite lookup_delete_ne in Hx by done.
        apply lookup_union_Some_raw in Hx as [Hx|[_ Hx]]; [|congruence].
        destruct (Hkeys q x Hx) as [[? _]|[_ Hd]]; [done|]. by intros ?. }
    rewrite Hfiles.
    destruct w as [run nm fs ig op ih mx wgc]. unfold set_files, set_names.
    simpl in *. by rewrite Hnames.
Qed.

Lemma Remove_after_Add_witness :
  Watcher.Remove unix (Watcher.Add unix New "/a").1 "/a" = (New, None).
Proof.
  apply (Remove_after_Add unix New "/a" "/a"); try reflexivity.
  - intros q [x Hx]. simpl in Hx. by rewrite lookup_empty in Hx.
  - intros l fInfo Hl Hin. vm_compute in Hl. inversion Hl; subst l.
    repeat (apply elem_of_cons in Hin as [->|Hin]);
      [| | |by apply elem_of_nil in Hin];
      vm_compute; split; [reflexivity | discriminate
                         | reflexivity | discriminate
                         | reflexivity | discriminate].
Defined.

(** ** Writes and permission changes *)

Lemma filter_event_of (os : OS) (P : Event -> Prop) (Q : action -> Prop)
    `{!forall e, Decision (P e)} `{!forall a, Decision (Q a)} (l : list action) :
  (forall a, P (event_of os a) <-> Q a) ->
  filter P (map (event_of os) l) = map (event_of os) (filter Q l).
Proof.
  intros HPQ. induction l as [|a l IH]; [done|]. simpl.
  destruct (decide (Q a)) as [Hq|Hq].
  - rewrite filter_cons_True by (by apply HPQ).
    rewrite (filter_cons_True Q) by done. simpl. by rewrite IH.
  - rewrite filter_cons_False by (by rewrite HPQ).
    by rewrite (filter_cons_False Q).
Qed.

Lemma filter_none {A : Type} (P : A -> Prop) `{!forall x, Decision (P x)} (l : list A) :
  Forall (fun x => ~ P x) l -> filter P l = [].
Proof.
  induction 1 as [|x l Hx Hl IH]; [done|]. by rewrite filter_cons_False.
Qed.

Section Changes.
Context (os : OS).
Variable range : nat -> gmap string FileInfo -> list (string * FileInfo).
Hypothesis range_any : any_order range.

(** The second loop sends for a path only at the turn of that path. *)
Lemma changes_at_other (P : string -> action -> Prop)
    `{!forall p a, Decision (P p a)} (old : gmap string FileInfo) (p : string)
    (kv : string * FileInfo) :
  (forall q i, q <> p -> ~ P p (AWrite q i) /\ ~ P p (AChmod q i)) ->
  kv.1 <> p ->
  filter (P p) (changes_at old kv) = [].
Proof.
  intros Hother Hne. apply filter_none. unfold changes_at.
  destruct (old !! kv.1) as [oldInfo|]; [|constructor].
  apply Forall_app. split.
  - destruct (decide (ModTime oldInfo <> ModTime kv.2));
      [apply Forall_singleton; by apply Hother | constructor].
  - destruct (decide (Mode oldInfo <> Mode kv.2));
      [apply Forall_singleton; by apply Hother | constructor].
Qed.

Lemma changes_filter (P : string -> action -> Prop)
    `{!forall p a, Decision (P p a)} (old : gmap string FileInfo) (p : string)
    (l : list (string * FileInfo)) :
  (forall q i, q <> p -> ~ P p (AWrite q i) /\ ~ P p (AChmod q i)) ->
  p ∉ l.*1 ->
  filter (P p) (concat (map (changes_at old) l)) = [].
Proof.
  intros Hother. induction l as [|kv l IH]; intros Hp; [done|].
  simpl. rewrite filter_app.
  assert (kv.1 <> p) as Hne by (intros Heq; apply Hp; rewrite <- Heq; by left).
  rewrite IH by (intros Hin; apply Hp; by right).
  by rewrite (changes_at_other P old p kv Hother Hne).
Qed.

Lemma changes_filter_at (P : string -> action -> Prop)
    `{!forall p a, Decision (P p a)} (old : gmap string FileInfo) (p : string)
    (i2 : FileInfo) (l : list (string * FileInfo)) :
  (forall q i, q <> p -> ~ P p (AWrite q i) /\ ~ P p (AChmod q i)) ->
  NoDup l.*1 -> (p, i2) ∈ l ->
  filter (P p) (concat (map (changes_at old) l))
  = filter (P p) (changes_at old (p, i2)).
Proof.
  intros Hother. induction l as [|kv l IH]; intros Hnd Hin;
    [by apply elem_of_nil in Hin|].
  simpl in Hnd. apply NoDup_cons in Hnd as [Hfresh Hnd].
  simpl. rewrite filter_app. apply elem_of_cons in Hin as [<-|Hin].
  - rewrite (changes_filter P old p l Hother Hfresh). by rewrite app_nil_r.
  - assert (kv.1 <> p) as Hne.
    { intros Heq. apply Hfresh. rewrite Heq.
      by apply (list_elem_of_fmap_2' fst _ (p, i2)). }
    rewrite (changes_at_other P old p kv Hother Hne). by apply IH.
Qed.

Lemma pollActions_filter_changes (P : action -> Prop)
    `{!forall a, Decision (P a)} (old new : gmap string FileInfo) :
  (forall path1 info1 path2, ~ P (APair path1 info1 path2)) ->
  (forall path info, ~ P (ACreate path info)) ->
  (forall path info, ~ P (ARemove path info)) ->
  filter P (pollActions os range old new) = filter P (changes range old new).
Proof.
  intros HP HC HR. unfold pollActions. rewrite !filter_app.
  assert (forall l : list (string * FileInfo),
            filter P (map (fun kv => ACreate kv.1 kv.2) l) = []) as ->.
  { intros l. apply filter_none, Forall_forall.
    intros a (kv & -> & _)%list_elem_of_fmap. apply HC. }
  assert (forall l : list (string * FileInfo),
            filter P (map (fun kv => ARemove kv.1 kv.2) l) = []) as ->.
  { intros l. apply filter_none, Forall_forall.
    intros a (kv & -> & _)%list_elem_of_fmap. apply HR. }
  rewrite (filter_none P (p_sent _)); [by rewrite !app_nil_r|].
  eapply Forall_impl; [apply pair_outer_sent; constructor|].
  intros [| |path1 info1 path2| |]; simpl; done.
Qed.
End Changes.

Lemma write_event_iff (os : OS) (p : string) (a : action) :
  EvOp (event_of os a) = Write /\ Path (event_of os a) = p <-> is_write p a.
Proof.
  destruct a as [q i|q i|q1 i q2|q i|q i]; simpl.
  - split; [by intros [_ ?] | by intros ->].
  - split; [intros [H _]; discriminate | done].
  - split; [|done]. destruct (decide _); intros [H _]; discriminate.
  - split; [intros [H _]; discriminate | done].
  - split; [intros [H _]; discriminate | done].
Qed.

Lemma chmod_event_iff (os : OS) (p : string) (a : action) :
  EvOp (event_of os a) = Chmod /\ Path (event_of os a) = p <-> is_chmod p a.
Proof.
  destruct a as [q i|q i|q1 i q2|q i|q i]; simpl.
  - split; [intros [H _]; discriminate | done].
  - split; [by intros [_ ?] | by intros ->].
  - split; [|done]. destruct (decide _); intros [H _]; discriminate.
  - split; [intros [H _]; discriminate | done].
  - split; [intros [H _]; discriminate | done].
Qed.

(** X15: a path that is in the snapshot and in the listing gets a Write
    event exactly when its modification time differs and a Chmod event
    exactly when its mode differs, each once and with the new metadata, and
    it is neither removed, created nor paired, in whatever order the maps are
    visited. *)
Theorem pollEvents_write_chmod (os : OS)
    (range : nat -> gmap string FileInfo -> list (string * FileInfo))
    (w : Watcher) (fileList : gmap string FileInfo) (p : string)
    (i1 i2 : FileInfo) :
  any_order range ->
  files w !! p = Some i1 -> fileList !! p = Some i2 ->
  filter (fun e => EvOp e = Write /\ Path e = p)
         (Watcher.pollEvents os range w fileList)
  = (if decide (ModTime i1 <> ModTime i2) then [mkEvent Write p i2] else [])
  /\ filter (fun e => EvOp e = Chmod /\ Path e = p)
            (Watcher.pollEvents os range w fileList)
     = (if decide (Mode i1 <> Mode i2) then [mkEvent Chmod p i2] else [])
  /\ filter (consumes_old p) (pollActions os range (files w) fileList) = []
  /\ filter (consumes_new p) (pollActions os range (files w) fileList) = [].
Proof.
  intros Hrange H1 H2.
  destruct op_constants_distinct as (D1 & D2 & D3 & D4 & D5 & D6 & D7 & D8).
  assert ((p, i2) ∈ range 0%nat fileList) as Hin
    by (by apply (range_elem range Hrange)).
  pose proof (range_NoDup range Hrange 0%nat fileList) as Hnd.
  split; [|split; [|split]].
  - unfold Watcher.pollEvents.
    rewrite (filter_event_of os _ (is_write p)).
    + rewrite (pollActions_filter_changes os range (is_write p)) by (simpl; tauto).
      unfold changes.
      rewrite (changes_filter_at is_write (files w) p i2 _) by (simpl; tauto || done).
      unfold changes_at. simpl. rewrite H1. rewrite filter_app.
      destruct (decide (ModTime i1 <> ModTime i2));
        destruct (decide (Mode i1 <> Mode i2)); filter_known; reflexivity.
    + apply write_event_iff.
  - unfold Watcher.pollEvents.
    rewrite (filter_event_of os _ (is_chmod p)).
    + rewrite (pollActions_filter_changes os range (is_chmod p)) by (simpl; tauto).
      unfold changes.
      rewrite (changes_filter_at is_chmod (files w) p i2 _) by (simpl; tauto || done).
      unfold changes_at. simpl. rewrite H1. rewrite filter_app.
      destruct (decide (ModTime i1 <> ModTime i2));
        destruct (decide (Mode i1 <> Mode i2)); filter_known; reflexivity.
    + apply chmod_event_iff.
  - destruct (pairs_inv os range Hrange (files w) fileList) as [[Hic Hir Hnd' Hsent] _].
    apply filter_none. apply Forall_forall. intros a Ha Hcons.
    unfold pollActions in Ha. rewrite !elem_of_app in Ha.
    destruct Ha as [Ha|[Ha|[Ha|Ha]]].
    + pose proof (changes_ops os range (files w) fileList) as Hch.
      rewrite Forall_forall in Hch. specialize (Hch _ Ha).
      destruct a; simpl in *; try done; destruct Hch as [Hch|Hch];
        try discriminate; destruct (decide _); discriminate.
    + rewrite Forall_forall in Hsent. specialize (Hsent _ Ha).
      destruct a as [| |q1 i q2| |]; simpl in *; try done. subst q1.
      destruct Hsent as [HR _]. apply removes_of_lookup in HR as [_ HR]. congruence.
    + apply list_elem_of_fmap in Ha as (kv & -> & _). done.
    + apply list_elem_of_fmap in Ha as (kv & -> & Hkv). simpl in Hcons. subst p.
      apply (range_elem range Hrange) in Hkv. rewrite Hir in Hkv.
      destruct (decide _); [done|].
      apply removes_of_lookup in Hkv as [_ Hkv]. congruence.
  - destruct (pairs_inv os range Hrange (files w) fileList) as [[Hic Hir Hnd' Hsent] _].
    apply filter_none. apply Forall_forall. intros a Ha Hcons.
    unfold pollActions in Ha. rewrite !elem_of_app in Ha.
    destruct Ha as [Ha|[Ha|[Ha|Ha]]].
    + pose proof (changes_ops os range (files w) fileList) as Hch.
      rewrite Forall_forall in Hch. specialize (Hch _ Ha).
      destruct a; simpl in *; try done; destruct Hch as [Hch|Hch];
        try discriminate; destruct (decide _); discriminate.
    + rewrite Forall_forall in Hsent. specialize (Hsent _ Ha).
      destruct a as [| |q1 i q2| |]; simpl in *; try done. subst q2.
      destruct Hsent as (_ & info2 & HC & _).
      apply creates_of_lookup in HC as [_ HC]. congruence.
    + apply list_elem_of_fmap in Ha as (kv & -> & Hkv). simpl in Hcons. subst p.
      apply (range_elem range Hrange) in Hkv. rewrite Hic in Hkv.
      destruct (decide _); [done|].
      apply creates_of_lookup in Hkv as [_ Hkv]. congruence.
    + apply list_elem_of_fmap in Ha as (kv & -> & _). done.
Qed.

Lemma pollEvents_write_chmod_witness :
  filter (fun e => EvOp e = Write /\ Path e = "/a/bc")
         (Watcher.pollEvents unix range_fixed (set_files New one_file) one_file_touched)
  = (if decide (ModTime (file "bc") <> ModTime (mkFileInfo "bc" 10 420 T1 false))
     then [mkEvent Write "/a/bc" (mkFileInfo "bc" 10 420 T1 false)] else [])
  /\ filter (fun e => EvOp e = Chmod /\ Path e = "/a/bc")
            (Watcher.pollEvents unix range_fixed (set_files New one_file) one_file_touched)
     = (if decide (Mode (file "bc") <> Mode (mkFileInfo "bc" 10 420 T1 false))
        then [mkEvent Chmod "/a/bc" (mkFileInfo "bc" 10 420 T1 false)] else [])
  /\ filter (consumes_old "/a/bc")
            (pollActions unix range_fixed (files (set_files New one_file)) one_file_touched)
     = []
  /\ filter (consumes_new "/a/bc")
            (pollActions unix range_fixed (files (set_files New one_file)) one_file_touched)
     = [].
Proof.
  apply (pollEvents_write_chmod unix range_fixed (set_files New one_file)
           one_file_touched "/a/bc" (file "bc") (mkFileInfo "bc" 10 420 T1 false));
    [apply range_fixed_any_order | reflexivity | reflexivity].
Defined.

(** The spec's scenario: the modification time of one file changes and the
    diff is one Write event. *)
Example one_write :
  Watcher.pollEvents unix range_fixed (set_files New one_file) one_file_touched
  = [mkEvent Write "/a/bc" (mkFileInfo "bc" 10 420 T1 false)].
Proof. reflexivity. Qed.

(** ** Creates, removes and pairings *)

(** X16: a Create event carries a path that the listing has and the
    snapshot lacks, with the metadata of the listing; a Remove event carries
    a path that the snapshot has and the listing lacks, with the metadata of
    the snapshot.  And a path that only the listing has is consumed exactly
    once: by its Create, or as the new path of one Rename or Move. *)
Theorem pollEvents_create_remove (os : OS)
    (range : nat -> gmap string FileInfo -> list (string * FileInfo))
    (w : Watcher) (fileList : gmap string FileInfo) :
  any_order range ->
  (forall e, e ∈ Watcher.pollEvents os range w fileList -> EvOp e = Create ->
     fileList !! Path e = Some (Info e) /\ files w !! Path e = None)
  /\ (forall e, e ∈ Watcher.pollEvents os range w fileList -> EvOp e = Remove ->
        files w !! Path e = Some (Info e) /\ fileList !! Path e = None)
  /\ (forall p, files w !! p = None -> is_Some (fileList !! p) ->
        length (filter (consumes_new p) (pollActions os range (files w) fileList))
        = 1%nat).
Proof.
  intros Hrange.
  destruct (pairs_inv os range Hrange (files w) fileList) as [[Hic Hir Hnd Hsent] _].
  assert (forall e, e ∈ Watcher.pollEvents os range w fileList ->
            EvOp e = Create \/ EvOp e = Remove ->
            (EvOp e = Create /\ creates_of (files w) fileList !! Path e = Some (Info e))
            \/ (EvOp e = Remove /\ removes_of (files w) fileList !! Path e = Some (Info e)))
    as Hboth.
  { intros e He Hop. unfold Watcher.pollEvents in He.
    apply list_elem_of_fmap in He as (a & -> & Ha). unfold pollActions in Ha.
    rewrite !elem_of_app in Ha. destruct Ha as [Ha|[Ha|[Ha|Ha]]].
    - pose proof (changes_ops os range (files w) fileList) as Hch.
      rewrite Forall_forall in Hch. specialize (Hch _ Ha).
      destruct Hch as [Hch|Hch], Hop as [Hop|Hop]; rewrite Hch in Hop; discriminate.
    - pose proof (pair_ops os a) as Hp.
      assert (is_pair a) as Hpair.
      { rewrite Forall_forall in Hsent. specialize (Hsent _ Ha). by destruct a. }
      destruct (Hp Hpair) as [Hp'|Hp'], Hop as [Hop|Hop];
        rewrite Hp' in Hop; discriminate.
    - apply list_elem_of_fmap in Ha as (kv & -> & Hkv). simpl. left.
      split; [done|]. apply (range_elem range Hrange) in Hkv.
      rewrite Hic in Hkv. by destruct (decide _).
    - apply list_elem_of_fmap in Ha as (kv & -> & Hkv). simpl. right.
      split; [done|]. apply (range_elem range Hrange) in Hkv.
      rewrite Hir in Hkv. by destruct (decide _). }
  split; [|split].
  - intros e He Hop. destruct (Hboth e He (or_introl Hop)) as [[_ H]|[H _]].
    + by apply creates_of_lookup in H.
    + rewrite Hop in H. discriminate.
  - intros e He Hop. destruct (Hboth e He (or_intror Hop)) as [[H _]|[_ H]].
    + rewrite Hop in H. discriminate.
    + by apply removes_of_lookup in H.
  - intros p Hold [i Hnew]. apply (pollActions_new_once os range Hrange).
    exists i. by apply creates_of_lookup.
Qed.

Lemma pollEvents_create_remove_witness :
  (forall e, e ∈ Watcher.pollEvents unix range_fixed (set_files New old_x) new_yz ->
     EvOp e = Create ->
     new_yz !! Path e = Some (Info e) /\ files (set_files New old_x) !! Path e = None)
  /\ (forall e, e ∈ Watcher.pollEvents unix range_fixed (set_files New old_x) new_yz ->
        EvOp e = Remove ->
        files (set_files New old_x) !! Path e = Some (Info e) /\ new_yz !! Path e = None)
  /\ (forall p, files (set_files New old_x) !! p = None -> is_Some (new_yz !! p) ->
        length (filter (consumes_new p)
                  (pollActions unix range_fixed (files (set_files New old_x)) new_yz))
        = 1%nat).
Proof.
  apply (pollEvents_create_remove unix range_fixed (set_files New old_x) new_yz).
  apply range_fixed_any_order.
Defined.

Section OnePairing.
Context (os : OS).

Lemma count_old_zero (p : string) (sent : list action) :
  Forall is_pair sent -> p ∉ olds sent ->
  length (filter (consumes_old p) sent) = 0%nat.
Proof.
  induction 1 as [|a sent Ha Hs IH]; [done|].
  destruct a as [| |path1 info1 path2| |]; try done.
  unfold olds in *. simpl. intros Hp.
  rewrite filter_cons_False; [apply IH|].
  - intros Hin. apply Hp. by right.
  - simpl. intros ->. apply Hp. by left.
Qed.

(** Pairings of [p] that all have the same new path are at most as many as
    that path occurs among the new paths. *)
Lemma count_old_le (p p2 : string) (sent : list action) :
  (forall a, a ∈ sent -> consumes_old p a -> exists i, a = APair p i p2) ->
  (length (filter (consumes_old p) sent)
   <= length (filter (fun x => x = p2) (news sent)))%nat.
Proof.
  induction sent as [|a sent IH]; intros Hall; [done|].
  assert (length (filter (consumes_old p) sent)
          <= length (filter (fun x => x = p2) (news sent)))%nat as IH'
    by (apply IH; intros a' Ha'; apply Hall; by right).
  destruct (decide (consumes_old p a)) as [Hc|Hc].
  - destruct (Hall a (list_elem_of_here _ _) Hc) as [i ->].
    rewrite filter_cons_True by done. unfold news in *. simpl.
    rewrite filter_cons_True by done. simpl. apply le_n_S, IH'.
  - rewrite filter_cons_False by done.
    destruct a as [| |path1 info1 path2| |]; unfold news in *; simpl;
      try exact IH'.
    destruct (decide (path2 = p2)) as [He|Hne].
    + rewrite filter_cons_True by done. simpl. apply le_S, IH'.
    + rewrite filter_cons_False by done. exact IH'.
Qed.

Lemma count_old_unique (R0 C0 : gmap string FileInfo) (p : string) (i : FileInfo)
    (sent : list action) :
  Forall (matched os R0 C0) sent -> NoDup (news sent) ->
  R0 !! p = Some i ->
  (forall p2 p3 i2 i3, C0 !! p2 = Some i2 -> C0 !! p3 = Some i3 ->
     sameFile os i i2 = true -> sameFile os i i3 = true -> p2 = p3) ->
  (length (filter (consumes_old p) sent) <= 1)%nat.
Proof.
  intros Hsent Hnd Hp Huniq. rewrite Forall_forall in Hsent.
  destruct (filter (consumes_old p) sent) as [|a0 rest] eqn:Hf; [simpl; lia|].
  assert (a0 ∈ filter (consumes_old p) sent) as Ha0 by (rewrite Hf; by left).
  apply list_elem_of_filter in Ha0 as [Hc0 Hin0].
  pose proof (Hsent _ Hin0) as Hm0.
  destruct a0 as [| |q1 j q0| |]; try done. simpl in Hc0. subst q1.
  destruct Hm0 as (Hj & j2 & Hq0 & Hs0).
  assert (j = i) as -> by congruence.
  rewrite <- Hf.
  etrans; [apply (count_old_le p q0)|].
  - intros a Ha Hc. pose proof (Hsent _ Ha) as Hm.
    destruct a as [| |q1 j q| |]; try done. simpl in Hc. subst q1.
    destruct Hm as (Hj' & j2' & Hq & Hs).
    assert (j = i) as -> by congruence.
    exists i. f_equal. by apply (Huniq q q0 j2' j2).
  - rewrite (count_NoDup _ _ Hnd). destruct (decide _); lia.
Qed.
End OnePairing.

(** X17: a path that only the snapshot has, and whose metadata [sameFile]
    pairs with at most one creation candidate, is consumed exactly once: by
    its Remove, or as the old path of one Rename or Move. *)
Theorem pollEvents_old_once (os : OS)
    (range : nat -> gmap string FileInfo -> list (string * FileInfo))
    (w : Watcher) (fileList : gmap string FileInfo) (p : string) (i : FileInfo) :
  any_order range ->
  files w !! p = Some i -> fileList !! p = None ->
  (forall p2 p3 i2 i3,
     fileList !! p2 = Some i2 -> files w !! p2 = None ->
     fileList !! p3 = Some i3 -> files w !! p3 = None ->
     sameFile os i i2 = true -> sameFile os i i3 = true -> p2 = p3) ->
  length (filter (consumes_old p) (pollActions os range (files w) fileList)) = 1%nat.
Proof.
  intros Hrange Hold Hnew Huniq.
  destruct (pairs_inv os range Hrange (files w) fileList) as [[Hic Hir Hnd Hsent] _].
  assert (removes_of (files w) fileList !! p = Some i) as HR
    by (by apply removes_of_lookup).
  assert (Forall is_pair (p_sent (pairs os range (files w) fileList))) as Hpairs
    by (eapply Forall_impl; [exact Hsent|]; by intros [| | | |]).
  assert (length (filter (consumes_old p) (p_sent (pairs os range (files w) fileList)))
          <= 1)%nat as Hle.
  { apply (count_old_unique os _ _ p i _ Hsent Hnd HR).
    intros p2 p3 i2 i3 [H2 H2']%creates_of_lookup [H3 H3']%creates_of_lookup.
    by apply Huniq. }
  unfold pollActions. rewrite !filter_app, !length_app.
  rewrite (count_changes range (consumes_old p)) by (intros ? ?; simpl; tauto).
  rewrite (count_none (consumes_old p) (map (fun kv => ACreate kv.1 kv.2) _))
    by (apply Forall_forall; intros a (kv & -> & _)%list_elem_of_fmap; simpl; tauto).
  assert (forall l : list (string * FileInfo),
            length (filter (consumes_old p) (map (fun kv => ARemove kv.1 kv.2) l))
            = length (filter (fun kv : string * FileInfo => kv.1 = p) l)) as Hrm.
  { induction l as [|kv l IH]; [done|]. simpl.
    destruct (decide (kv.1 = p)) as [He|Hne].
    - rewrite !filter_cons_True by done. simpl. by rewrite IH.
    - rewrite !filter_cons_False by done. done. }
  rewrite Hrm, (count_range range Hrange), Hir.
  destruct (decide (p ∈ olds (p_sent (pairs os range (files w) fileList)))) as [Hin|Hin].
  - pose proof (count_old_sent p _ Hpairs Hin). lia.
  - rewrite (count_old_zero p _ Hpairs Hin), HR. lia.
Qed.

Lemma pollEvents_old_once_witness :
  length (filter (consumes_old "/a/x")
            (pollActions unix range_fixed (files (set_files New old_x)) new_y))
  = 1%nat.
Proof.
  apply (pollEvents_old_once unix range_fixed (set_files New old_x) new_y
           "/a/x" (file "x")); [apply range_fixed_any_order | reflexivity | reflexivity |].
  intros p2 p3 i2 i3 H2 _ H3 _ _ _. unfold new_y in *.
  apply lookup_singleton_Some in H2 as [<- _].
  by apply lookup_singleton_Some in H3 as [<- _].
Defined.

(** ** Below the root of a walk *)

Lemma HasPrefix_trans (s1 : string) : forall s2 s3,
  HasPrefix s2 s1 = true -> HasPrefix s3 s2 = true -> HasPrefix s3 s1 = true.
Proof.
  unfold HasPrefix. induction s1 as [|c1 s1 IH]; intros s2 s3 H12 H23;
    [by destruct s3|].
  destruct s2 as [|c2 s2]; [discriminate H12|].
  destruct s3 as [|c3 s3]; [discriminate H23|].
  simpl in H12, H23. simpl.
  destruct (Ascii.ascii_dec c1 c2) as [->|]; [|discriminate H12].
  destruct (Ascii.ascii_dec c2 c3) as [->|]; [|discriminate H23].
  exact (IH s2 s3 H12 H23).
Qed.

Section WalkPaths.
Context (os : OS) {S : Type}.
Variable walkFn : string -> walkarg -> S -> S * option walkerr.
Variable P : S -> Prop.
Variable Q : string -> Prop.
Hypothesis walkFn_keeps : forall path a st, Q path -> P st -> P (walkFn path a st).1.
Hypothesis Join_keeps : forall a l b,
  Q a -> readDirNames os a = Ok l -> b ∈ l -> Q (Join os a b).

(** The loop over the names of a directory whose children satisfy [Q]. *)
Lemma walk_names_paths
    (rec : string -> FileInfo -> S -> option (S * option walkerr)) :
  (forall path info st r, Q path -> P st -> rec path info st = Some r -> P r.1) ->
  forall names path st r,
    (forall b, b ∈ names -> Q (Join os path b)) ->
    P st -> walk_names os walkFn rec path names st = Some r -> P r.1.
Proof.
  intros Hrec names. induction names as [|name rest IH]; intros path st r Hq Hst Hrun.
  - simpl in Hrun. by inversion Hrun.
  - assert (Q (Join os path name)) as Hname by (apply Hq; left).
    assert (forall b, b ∈ rest -> Q (Join os path b)) as Hrest
      by (intros b Hb; apply Hq; by right).
    cbn [walk_names] in Hrun.
    destruct (Lstat os (Join os path name)) as [fileInfo|e].
    + destruct (rec (Join os path name) fileInfo st) as [[st' o]|] eqn:Hr; [|done].
      pose proof (Hrec _ _ _ _ Hname Hst Hr) as Hst'. simpl in Hst'.
      destruct o as [[|e']|].
      * destruct (IsDir fileInfo); [by eapply IH|]. by inversion Hrun.
      * by inversion Hrun.
      * by eapply IH.
    + pose proof (walkFn_keeps (Join os path name) (Unreadable e) st Hname Hst)
        as Hst'.
      destruct (walkFn (Join os path name) (Unreadable e) st) as [st' o].
      simpl in Hst'. destruct o as [[|e']|].
      * by eapply IH.
      * by inversion Hrun.
      * by eapply IH.
Qed.

Lemma walk_paths (fuel : nat) : forall path info st r,
  Q path -> P st -> walk os walkFn fuel path info st = Some r -> P r.1.
Proof.
  induction fuel as [|fuel IH]; intros path info st r Hq Hst Hrun; [done|].
  cbn [walk] in Hrun. destruct (negb (IsDir info)).
  - inversion Hrun. by apply walkFn_keeps.
  - match type of Hrun with
    | context [walkFn path ?a st] =>
        pose proof (walkFn_keeps path a st Hq Hst) as Hst';
        destruct (walkFn path a st) as [st1 err1]
    end.
    simpl in Hst'. destruct err1 as [err1|].
    + by inversion Hrun.
    + destruct (readDirNames os path) as [l|e] eqn:Hrd; [|by inversion Hrun].
      eapply walk_names_paths; [exact IH | | exact Hst' | exact Hrun].
      intros b Hb. by apply (Join_keeps path l b).
Qed.
End WalkPaths.

Section UnderRoot.
Context (os : OS) (p : string).
Hypothesis Join_grows : Join_extends os p.

Lemma inside_Join (a : string) (l : Datatypes.list string) (b : string) :
  reached_below os p a -> readDirNames os a = Ok l -> b ∈ l ->
  reached_below os p (Join os a b).
Proof.
  intros [[Hpre Hlen] Hw] Hrd Hb.
  destruct (Join_grows a l b Hw Hrd Hb) as [H1 H2].
  split; [|by eapply walked_child]. split; [|lia].
  by apply (HasPrefix_trans p a).
Qed.

Lemma inside_child (l : Datatypes.list string) (b : string) :
  readDirNames os p = Ok l -> b ∈ l -> reached_below os p (Join os p b).
Proof.
  intros Hrd Hb.
  destruct (Join_grows p l b (walked_root os p) Hrd Hb) as [H1 H2].
  split; [by split|]. eapply walked_child; [apply walked_root | exact Hrd | exact Hb].
Qed.

Lemma listRecursive_fn_rooted (w : Watcher) (o : option FileInfo)
    (path : string) (a : walkarg) (fl : gmap string FileInfo) :
  reached_below os p path -> rooted p o fl ->
  rooted p o (Watcher.listRecursive_fn w path a fl).1.
Proof.
  intros [[Hpre Hlen] _] [Hroot Hkeys]. unfold Watcher.listRecursive_fn.
  destruct a as [info [e|]|e]; [done| |done].
  destruct (Watcher.skipped w path (Name info)); [done|]. simpl. split.
  - rewrite lookup_insert_ne; [done|]. intros ->. lia.
  - intros k. destruct (decide (path = k)) as [<-|Hne]; [done|].
    rewrite lookup_insert_ne by done. apply Hkeys.
Qed.

(** The map of a walk from [p], when the walk returns no error: nothing, for
    a root that is skipped; the root alone, for a file; the root with its
    own [FileInfo] and paths below it, for a directory. *)
Lemma listRecursive_rooted (fuel : nat) (w : Watcher)
    (m : gmap string FileInfo) (e : option error) :
  Watcher.listRecursive os fuel w p = Some (m, e) ->
  (forall k, is_Some (m !! k) -> HasPrefix k p = true)
  /\ (e = None ->
      m = ∅
      \/ exists info, Lstat os p = Ok info
           /\ ((IsDir info = false /\ m = {[ p := info ]})
               \/ (IsDir info = true /\ m !! p = Some info))).
Proof.
  unfold Watcher.listRecursive, Walk. intros Hrun.
  destruct (Lstat os p) as [info|e0] eqn:HL.
  - destruct fuel as [|fuel]; [done|]. cbn [walk] in Hrun.
    destruct (Watcher.skipped w p (Name info)) eqn:Hs.
    + assert (m = ∅) as ->.
      { unfold Watcher.listRecursive_fn in Hrun. rewrite Hs in Hrun.
        destruct (IsDir info); simpl in Hrun.
        - destruct (readDirNames os p); by inversion Hrun.
        - by inversion Hrun. }
      split; [|by left]. intros k [x Hx]. by rewrite lookup_empty in Hx.
    + assert (forall err, Watcher.listRecursive_fn w p (Visited info (Some err)) ∅
                          = (∅, Some (Fail err))) as Hfail by done.
      assert (Watcher.listRecursive_fn w p (Visited info None) ∅
              = (<[ p := info ]> ∅, None)) as Hfn
        by (unfold Watcher.listRecursive_fn; by rewrite Hs).
      assert (rooted p (Some info) (<[ p := info ]> ∅)) as Hinit.
      { split; [apply lookup_insert_eq|]. intros k [x Hx].
        apply lookup_insert_Some in Hx as [[<- _]|[_ Hx]];
          [apply HasPrefix_refl | by rewrite lookup_empty in Hx]. }
      destruct (IsDir info) eqn:Hdir; cbn [negb] in Hrun.
      * destruct (readDirNames os p) as [l|err] eqn:Hrd.
        -- rewrite Hfn in Hrun.
           destruct (walk_names os (Watcher.listRecursive_fn w)
                       (walk os (Watcher.listRecursive_fn w) fuel) p l
                       (<[ p := info ]> ∅)) as [[st' o]|] eqn:Hw; [|done].
           assert (rooted p (Some info) st') as [Hroot Hkeys].
           { apply (walk_names_paths os (Watcher.listRecursive_fn w)
                      (rooted p (Some info)) (reached_below os p)
                      (fun path a st => listRecursive_fn_rooted w (Some info) path a st)
                      (walk os (Watcher.listRecursive_fn w) fuel)
                      (walk_paths os (Watcher.listRecursive_fn w)
                         (rooted p (Some info)) (reached_below os p)
                         (fun path a st => listRecursive_fn_rooted w (Some info) path a st)
                         inside_Join fuel)
                      l p (<[ p := info ]> ∅) (st', o)
                      (fun b Hb => inside_child l b Hrd Hb) Hinit Hw). }
           assert (m = st') as ->
             by (destruct o as [[|e']|]; by inversion Hrun).
           split; [done|]. intros _. right. exists info. split; [done|]. by right.
        -- rewrite Hfail in Hrun. inversion Hrun; subst.
           split; [|done]. intros k [x Hx]. by rewrite lookup_empty in Hx.
      * rewrite Hfn in Hrun. inversion Hrun; subst.
        split; [apply Hinit|]. intros _. right. exists info. split; [done|].
        left. split; [done|]. by rewrite insert_empty.
  - simpl in Hrun. inversion Hrun; subst. split; [|done].
    intros k [x Hx]. by rewrite lookup_empty in Hx.
Qed.
End UnderRoot.

(** In the system of the examples every directory that a walk from [/a]
    reads gives names that [filepath.Join], with its [Clean], puts below
    it. *)
Lemma unix_Join_extends : Join_extends unix "/a".
Proof.
  intros a l b _ Hrd Hb. simpl in Hrd. unfold tree_names, tree in Hrd.
  cbn [assoc] in Hrd.
  repeat (case_bool_decide; [subst a; injection Hrd as <-|]); [..|discriminate Hrd];
    repeat (apply elem_of_cons in Hb as [->|Hb]; [vm_compute; split; [reflexivity|lia]|]);
    by apply elem_of_nil in Hb.
Qed.

(** X18: every path in a map returned by [listRecursive] has the root of the
    walk as a string prefix, with or without an error of the walk, when in
    each directory the walk can reach [filepath.Join] of the directory and a
    name read there has the directory as a proper prefix. *)
Theorem listRecursive_under_root (os : OS) (fuel : nat) (w : Watcher) (r : string)
    (m : gmap string FileInfo) (e : option error) :
  Join_extends os r ->
  Watcher.listRecursive os fuel w r = Some (m, e) ->
  forall k, is_Some (m !! k) -> HasPrefix k r = true.
Proof.
  intros HJ Hrun. by destruct (listRecursive_rooted os r HJ fuel w m e Hrun).
Qed.

Lemma listRecursive_under_root_witness :
  Watcher.listRecursive unix 5 hiding "/a" = Some (listing_a_deep, None)
  /\ is_Some (listing_a_deep !! "/a/b/c")
  /\ HasPrefix "/a/b/c" "/a" = true.
Proof.
  assert (Watcher.listRecursive unix 5 hiding "/a" = Some (listing_a_deep, None))
    as Hrun by (vm_compute; reflexivity).
  assert (is_Some (listing_a_deep !! "/a/b/c")) as Hin
    by (exists (file "c"); vm_compute; reflexivity).
  split; [exact Hrun|]. split; [exact Hin|].
  exact (listRecursive_under_root unix 5 hiding "/a" listing_a_deep None
           unix_Join_extends Hrun "/a/b/c" Hin).
Defined.

(** X19: [RemoveRecursive] undoes [AddRecursive].  When in each directory
    the walk can reach [filepath.Join] of the directory and a name read
    there has the directory as a proper prefix, the path is not a root and
    no tracked entry has it as a string prefix, then [AddRecursive] followed
    by [RemoveRecursive] of the same name gives back the watcher, whether
    the walk listed a tree, a file, nothing, or failed. *)
Theorem RemoveRecursive_after_AddRecursive (os : OS) (fuel : nat) (w : Watcher)
    (name p : string) (res : Watcher * option error) :
  Abs os name = Ok p ->
  Join_extends os p ->
  names w !! p = None ->
  (forall k, is_Some (files w !! k) -> HasPrefix k p = false) ->
  Watcher.AddRecursive os fuel w name = Some res ->
  Watcher.RemoveRecursive os res.1 name = (w, None).
Proof.
  intros Hp HJ Hn Hfree.
  assert (files w !! p = None) as Hf.
  { destruct (files w !! p) as [x|] eqn:E; [|done].
    assert (HasPrefix p p = false) as H by (apply Hfree; by eexists).
    by rewrite HasPrefix_refl in H. }
  assert (Watcher.RemoveRecursive os w name = (w, None)) as Hsame.
  { rewrite (RemoveRecursive_ok os w name p Hp). unfold purged. rewrite Hf.
    destruct w as [run nm fs ig op ih mx wgc]. simpl in *.
    by rewrite (delete_id nm p Hn). }
  unfold Watcher.AddRecursive. rewrite Hp.
  destruct (Watcher.listRecursive os fuel w p) as [[m [e|]]|] eqn:Hl;
    [by intros [= <-] | | done].
  intros [= <-]. simpl fst.
  destruct (listRecursive_rooted os p HJ fuel w m None Hl) as [Hkeys Hcase].
  rewrite (RemoveRecursive_ok os _ name p Hp). simpl.
  assert (delete p (<[ p := true ]> (names w)) = names w) as Hnames
    by (by apply delete_insert_id).
  assert (purged (set_names (set_files w (m ∪ files w)) (<[ p := true ]> (names w))) p
          = files w) as Hfiles.
  { unfold purged. simpl.
    destruct (Hcase eq_refl) as [->|(info & HL & [[Hdir ->]|[Hdir Hroot]])].
    - rewrite (left_id_L ∅ (∪)). by rewrite Hf.
    - rewrite <- insert_union_singleton_l, lookup_insert_eq, Hdir.
      by apply delete_insert_id.
    - rewrite (lookup_union_Some_l m (files w) p info Hroot), Hdir.
      apply map_eq. intros k. destruct (files w !! k) as [x|] eqn:Hk.
      + assert (HasPrefix k p = false) as Hpre by (apply Hfree; by eexists).
        assert (m !! k = None) as Hmk.
        { destruct (m !! k) as [y|] eqn:E; [|done].
          assert (HasPrefix k p = true) as H by (apply Hkeys; by eexists).
          congruence. }
        apply map_lookup_filter_Some. split; [|done].
        by rewrite (lookup_union_r m (files w) k Hmk).
      + apply map_lookup_filter_None. right. intros x Hx. simpl.
        apply lookup_union_Some_raw in Hx as [Hx|[_ Hx]]; [|congruence].
        assert (HasPrefix k p = true) as H by (apply Hkeys; by eexists).
        by rewrite H. }
  rewrite Hfiles, Hnames.
  by destruct w as [run nm fs ig op ih mx wgc].
Qed.

Lemma RemoveRecursive_after_AddRecursive_witness :
  Watcher.AddRecursive unix 5 New "/a" = Some (watching_a, None)
  /\ Watcher.RemoveRecursive unix watching_a "/a" = (New, None).
Proof.
  assert (Watcher.AddRecursive unix 5 New "/a" = Some (watching_a, None)) as Hadd
    by (vm_compute; reflexivity).
  split; [exact Hadd|].
  apply (RemoveRecursive_after_AddRecursive unix 5 New "/a" "/a" (watching_a, None));
    [reflexivity | apply unix_Join_extends | reflexivity | | exact Hadd].
  intros k [x Hx]. simpl in Hx. by rewrite lookup_empty in Hx.
Defined.
